(** * Query splitter of the tablet server

    A shallow embedding of [go/vt/tabletserver/query_splitter.go] and the
    properties of its boundary computation, predicate rewriting, statement
    validation and split assembly.

    Layout: Go values and the packages the splitter imports, then the
    splitter itself (one definition per Go function, same names), then the
    lemmas and the theorems about it. *)

From Stdlib Require Import ZArith Lia Ascii String Floats.
From stdpp Require Import gmap strings list fin_maps.

Local Open Scope Z_scope.

(** ** Fixed-width integers

    Go's [int64] and [uint64] are carried by [Z]; every operation writes
    its wrap-around out. *)

Module I64.
Definition min_int : Z := - 2 ^ 63.
Definition max_int : Z := 2 ^ 63 - 1.
Definition in_range (z : Z) : Prop := min_int <= z <= max_int.
Definition wrap (z : Z) : Z := (z + 2 ^ 63) mod 2 ^ 64 - 2 ^ 63.
Definition add (a b : Z) : Z := wrap (a + b).
Definition sub (a b : Z) : Z := wrap (a - b).
Definition mul (a b : Z) : Z := wrap (a * b).
(** [a / b] for a non-zero divisor: the quotient truncates toward zero *)
Definition quot (a b : Z) : Z := wrap (Z.quot a b).
End I64.

Module U64.
Definition modulus : Z := 2 ^ 64.
Definition in_range (z : Z) : Prop := 0 <= z < modulus.
Definition wrap (z : Z) : Z := z mod modulus.
Definition add (a b : Z) : Z := wrap (a + b).
Definition sub (a b : Z) : Z := wrap (a - b).
Definition mul (a b : Z) : Z := wrap (a * b).
Definition quot (a b : Z) : Z := a / b.
End U64.

Module U32.
Definition modulus : Z := 2 ^ 32.
Definition wrap (z : Z) : Z := z mod modulus.
Definition mul (a b : Z) : Z := wrap (a * b).
End U32.

(** The unsigned 64-bit operations the splitter performs, recorded as it
    performs them, and what it means for one of them to leave the range of
    the type. *)
Inductive ArithEvent : Type :=
  | EvSub (a b : Z)
  | EvMul (a b : Z)
  | EvAdd (a b : Z).

Definition wraps_around (ev : ArithEvent) : bool :=
  match ev with
  | EvSub a b => a <? b
  | EvMul a b => U64.modulus <=? a * b
  | EvAdd a b => U64.modulus <=? a + b
  end.

(** [binary.BigEndian.PutUint32(buf, v)] on a 4-byte buffer *)
Definition byte_at (v : Z) (shift : Z) : ascii :=
  ascii_of_N (Z.to_N (Z.land (Z.shiftr v shift) 255)).

Definition PutUint32 (v : Z) : string :=
  String (byte_at v 24) (String (byte_at v 16)
    (String (byte_at v 8) (String (byte_at v 0) EmptyString))).

(** Reading four bytes back, most significant first *)
Definition Uint32_of_bytes (s : string) : option Z :=
  match s with
  | String b0 (String b1 (String b2 (String b3 EmptyString))) =>
      Some (Z.of_N (N_of_ascii b0) * 2 ^ 24 + Z.of_N (N_of_ascii b1) * 2 ^ 16
            + Z.of_N (N_of_ascii b2) * 2 ^ 8 + Z.of_N (N_of_ascii b3))
  | _ => None
  end.

(** ** Package [sqlparser]: the part of the syntax tree the splitter touches *)

(** Modelled from the spec: the identifiers of package sqlparser, which is
    outside [query_splitter.go]; an identifier is its text, and the empty
    text is the empty identifier. *)
Definition ColIdent : Type := string.
Definition TableIdent : Type := string.

(** Modelled from the spec: the expressions of package sqlparser that the
    predicate rewriter builds -- a column, a bind-variable argument, a
    comparison, a conjunction, a parenthesis -- with [OtherExpr] for any
    other expression of the original statement and [NilExpr] for a nil
    pointer stored as an expression. *)
Inductive Expr : Type :=
  | ColName (Name : ColIdent)
  | ValArg (v : string)
  | ComparisonExpr (Operator : string) (Left Right : Expr)
  | AndExpr (Left Right : Expr)
  | ParenExpr (e : Expr)
  | OtherExpr (text : string)
  | NilExpr.

(** Modelled from the spec: the constructor and the operator and clause
    names of package sqlparser that [getWhereClause] uses. *)
Definition NewValArg (v : string) : Expr := ValArg v.
Definition GreaterEqualStr : string := ">=".
Definition LessThanStr : string := "<".
Definition WhereStr : string := "where".

(** Modelled from the spec: the WHERE clause node, a clause name and an
    expression. *)
Record Where : Type := mkWhere { WType : string; WExpr : Expr }.

(** Modelled from the spec: the table expressions of a FROM list.  Only the
    aliased form over a simple expression is opened up; joins and
    parenthesised lists are carried as text. *)
Inductive SimpleTableExpr : Type :=
  | TableName (Name Qualifier : TableIdent)
  | Subquery (text : string).

Inductive TableExpr : Type :=
  | AliasedTableExpr (e : SimpleTableExpr) (As : TableIdent) (Hints : string)
  | ParenTableExpr (text : string)
  | JoinTableExpr (text : string).

(** Modelled from the spec: the SELECT node, with the fields
    [validateQuery] and [split] read or write.  A slice or pointer field
    that the code compares with [nil] is an [option]: [None] is [nil]. *)
Record Select : Type := mkSelect {
  Comments : list string;
  Distinct : string;
  SelectExprs : list string;
  From : list TableExpr;
  SelWhere : option Where;
  GroupBy : option (list Expr);
  Having : option Where;
  OrderBy : option (list string);
  Limit : option string;
  Lock : string
}.

Definition set_Where (s : Select) (w : option Where) : Select :=
  {| Comments := Comments s; Distinct := Distinct s;
     SelectExprs := SelectExprs s; From := From s; SelWhere := w;
     GroupBy := GroupBy s; Having := Having s; OrderBy := OrderBy s;
     Limit := Limit s; Lock := Lock s |}.

(** Modelled from the spec: what [sqlparser.Parse] returns, a SELECT or
    some other statement. *)
Inductive Statement : Type :=
  | SelectStmt (s : Select)
  | OtherStmt (text : string).

(** Modelled from the spec: [sqlparser.NewColIdent] and the [IsEmpty] test
    of both identifier types. *)
Definition NewColIdent (s : string) : ColIdent := s.
Definition IsEmpty (s : string) : bool := String.eqb s "".

(** ** Package [schema] *)

(** Modelled from the spec: the table description of package schema, which
    is outside [query_splitter.go]: the columns, the indexes with their
    columns, and the positions of the primary-key columns. *)
Record TableColumn : Type := mkTableColumn { CName : ColIdent }.
Record Index : Type := mkIndex { IName : string; IColumns : list ColIdent }.
Record Table : Type := mkTable {
  TName : TableIdent;
  Columns : list TableColumn;
  Indexes : list Index;
  PKColumns : list Z
}.

(** ** Errors: [fmt.Errorf] keeps its format and arguments; errors made by
    other packages are carried as they come. *)
Inductive FmtArg : Type :=
  | ArgColIdent (c : ColIdent)
  | ArgTable (t : Table).

Inductive error : Type :=
  | Errorf (format : string) (args : list FmtArg)
  | ForeignError (msg : string).

(** ** Package [sqltypes] *)

(** Modelled from the spec: [sqltypes.Value] is declared in package
    sqltypes, which is outside [query_splitter.go].  A value is a type tag
    and the textual (or raw) bytes of a scalar. *)
Record Value : Type := MakeTrusted { typ : Z; val : string }.

(** Modelled from the spec: the type tags of the null value and of the
    four kinds of value [BuildValue] makes for the splitter. *)
Definition Null : Z := 0.
Definition Int64 : Z := 265.
Definition Uint64 : Z := 778.
Definition Float64 : Z := 1036.
Definition VarBinary : Z := 10262.

(** Modelled from the spec: the zero value [sqltypes.Value{}] is the
    "no bound" sentinel, and [IsNull] accepts the values tagged null;
    [String] gives the text of a value. *)
Definition NullValue : Value := MakeTrusted Null "".
Definition IsNull (v : Value) : bool := typ v =? Null.
Definition Value_String (v : Value) : string := val v.

(** Modelled from the spec: [sqltypes.Result], of which the splitter reads
    the rows. *)
Record Result : Type := mkResult { Rows : list (list Value) }.

(** ** What the splitter imports and this development leaves open

    The parser and printer of package sqlparser, the table-name resolver,
    the schema's primary-key accessor, the type-family tests of package
    sqltypes, Go's [strconv] conversions and its [float64] arithmetic are
    used through their signatures only: every statement below holds for
    any implementation of them. *)
Class Externals : Type := {
  (** [interface{}] values held by a bind-variable map *)
  Native : Type;
  ToNative : Value -> Native;
  (** [float64] and the operations the splitter applies to it *)
  float64 : Type;
  f64_sub : float64 -> float64 -> float64;
  f64_div : float64 -> float64 -> float64;
  f64_add : float64 -> float64 -> float64;
  f64_mul : float64 -> float64 -> float64;
  f64_of_int : Z -> float64;
  f64_to_int64 : float64 -> Z;
  f64_is_zero : float64 -> bool;
  (** [strconv] *)
  ParseInt : string -> error + Z;
  ParseUint : string -> error + Z;
  ParseFloat : string -> error + float64;
  AppendInt : Z -> string;
  AppendUint : Z -> string;
  AppendFloat : float64 -> string;
  (** [sqltypes.IsSigned] and its siblings, on a [querypb.Type] *)
  IsSigned : Z -> bool;
  IsUnsigned : Z -> bool;
  IsFloat : Z -> bool;
  IsBinary : Z -> bool;
  (** [sqlparser.Parse], [sqlparser.String], [sqlparser.GetTableName] *)
  Parse : string -> error + Statement;
  SelectString : Select -> string;
  GetTableName : SimpleTableExpr -> TableIdent;
  (** [strings.ToLower], behind [ColIdent.Equal] *)
  ToLower : string -> string;
  (** [Table.GetPKColumn] of package schema *)
  GetPKColumn : Table -> Z -> TableColumn
}.

Section Splitter.
Context {ext : Externals}.

(** Modelled from the spec: [ColIdent.Equal] of package sqlparser compares
    the lowered names. *)
Definition Equal (a b : ColIdent) : bool := String.eqb (ToLower a) (ToLower b).

(** Modelled from the spec: [Value.ParseInt64] and [Value.ParseUint64] of
    package sqltypes parse the text of the value as a decimal 64-bit
    number. *)
Definition ParseInt64 (v : Value) : error + Z := ParseInt (val v).
Definition ParseUint64 (v : Value) : error + Z := ParseUint (val v).

(** The Go values the splitter hands to [sqltypes.BuildValue] *)
Inductive GoVal : Type :=
  | of_int64 (z : Z)
  | of_uint64 (z : Z)
  | of_float64 (f : float64)
  | of_bytes (b : string).

(** Modelled from the spec: [sqltypes.BuildValue] is declared in package
    sqltypes; on a number or a byte slice it yields a scalar value of
    the matching declared type, and it has no failure for these inputs. *)
Definition BuildValue (g : GoVal) : error + Value :=
  match g with
  | of_int64 z => inr (MakeTrusted Int64 (AppendInt z))
  | of_uint64 z => inr (MakeTrusted Uint64 (AppendUint z))
  | of_float64 f => inr (MakeTrusted Float64 (AppendFloat f))
  | of_bytes b => inr (MakeTrusted VarBinary b)
  end.

(** ** The splitter's state *)

(** A Go map is a reference: [None] is the nil map, [Some l] names a map
    object of the store. *)
Definition loc : Type := positive.
Definition mapref : Type := option loc.
Abbreviation BindVars := (gmap string Native).
Abbreviation Store := (gmap loc (gmap string Native)).

Record QuerySplitter : Type := mkQuerySplitter {
  sql : string;
  bindVariables : mapref;
  splitCount : Z;
  se : TableIdent -> option Table;
  sel : option Select;
  tableName : TableIdent;
  splitColumn : ColIdent;
  rowCount : Z
}.

Record QuerySplit : Type := mkQuerySplit {
  Sql : string;
  BindVariables : mapref;
  RowCount : Z
}.

Record State : Type := mkState {
  this : QuerySplitter;
  store : Store;
  arith : list ArithEvent
}.

Inductive PanicKind : Type :=
  | DivideByZero
  | IndexOutOfRange
  | NilPointer
  | NilMapWrite.

Inductive Outcome (A : Type) : Type :=
  | Ret (a : A) (s : State)
  | Panic (p : PanicKind).
Arguments Ret {A} a s.
Arguments Panic {A} p.

Definition M (A : Type) : Type := State -> Outcome A.

Definition mret {A} (a : A) : M A := fun s => Ret a s.
Definition mbind {A B} (m : M A) (k : A -> M B) : M B :=
  fun s => match m s with
           | Ret a s' => k a s'
           | Panic p => Panic p
           end.
Definition panic {A} (p : PanicKind) : M A := fun _ => Panic p.

Notation "x <- m ; k" := (mbind m (fun x => k))
  (at level 100, m at next level, right associativity,
   format "'[v' x  <-  m ; '/' k ']'").
Notation "m ;; k" := (mbind m (fun _ => k))
  (at level 100, right associativity).

Definition get_this : M QuerySplitter := fun s => Ret (this s) s.
Definition put_this (q : QuerySplitter) : M unit :=
  fun s => Ret tt (mkState q (store s) (arith s)).
Definition get_store : M Store := fun s => Ret (store s) s.
Definition put_store (h : Store) : M unit :=
  fun s => Ret tt (mkState (this s) h (arith s)).
Definition record (ev : ArithEvent) : M unit :=
  fun s => Ret tt (mkState (this s) (store s) (arith s ++ [ev])).

Definition set_rowCount (q : QuerySplitter) (n : Z) : QuerySplitter :=
  mkQuerySplitter (sql q) (bindVariables q) (splitCount q) (se q) (sel q)
                  (tableName q) (splitColumn q) n.
Definition set_sel (q : QuerySplitter) (s : option Select) : QuerySplitter :=
  mkQuerySplitter (sql q) (bindVariables q) (splitCount q) (se q) s
                  (tableName q) (splitColumn q) (rowCount q).
Definition set_tableName (q : QuerySplitter) (t : TableIdent) : QuerySplitter :=
  mkQuerySplitter (sql q) (bindVariables q) (splitCount q) (se q) (sel q)
                  t (splitColumn q) (rowCount q).
Definition set_splitColumn (q : QuerySplitter) (c : ColIdent) : QuerySplitter :=
  mkQuerySplitter (sql q) (bindVariables q) (splitCount q) (se q) (sel q)
                  (tableName q) c (rowCount q).

(** *** Map objects *)

(** Reading a map: the nil map reads as empty. *)
Definition map_contents (h : Store) (r : mapref) : gmap string Native :=
  match r with
  | Some l => default ∅ (h !! l)
  | None => ∅
  end.

(** [make(map[string]interface{}, n)] *)
Definition make_map : M mapref :=
  h <- get_store;
  let l := fresh (dom h) in
  put_store (<[l := ∅]> h) ;;
  mret (Some l).

(** [m[k] = v] *)
Definition map_assign (r : mapref) (k : string) (v : Native) : M unit :=
  match r with
  | None => panic NilMapWrite
  | Some l =>
      h <- get_store;
      put_store (<[l := <[k := v]> (default ∅ (h !! l))]> h)
  end.

(** [for k, v := range src { dst[k] = v }] *)
Definition map_copy_into (dst src : mapref) : M unit :=
  h <- get_store;
  map_fold (fun k v (m : M unit) => m ;; map_assign dst k v)
           (mret tt) (map_contents h src).

(** *** Loops and indexing *)

(** [for i := lo; i < hi; i++ { body }] where the body either goes on with
    a new accumulator or returns from the enclosing function *)
Fixpoint for_loop {S R} (n : nat) (i : Z) (body : Z -> S -> M (S + R)) (acc : S)
  : M (S + R) :=
  match n with
  | O => mret (inl acc)
  | Datatypes.S n' =>
      r <- body i acc;
      match r with
      | inl acc' => for_loop n' (i + 1) body acc'
      | inr out => mret (inr out)
      end
  end.

Definition for_range {S R} (lo hi : Z) (body : Z -> S -> M (S + R)) (acc : S)
  : M (S + R) :=
  for_loop (Z.to_nat (hi - lo)) lo body acc.

(** [rows[i][j]] *)
Definition at_index (rows : list (list Value)) (i j : nat) : M Value :=
  match rows !! i with
  | None => panic IndexOutOfRange
  | Some row =>
      match row !! j with
      | None => panic IndexOutOfRange
      | Some v => mret v
      end
  end.

(** Signed and unsigned division panic on a zero divisor. *)
Definition i64_div (a b : Z) : M Z :=
  if b =? 0 then panic DivideByZero else mret (I64.quot a b).
Definition u64_div (a b : Z) : M Z :=
  if b =? 0 then panic DivideByZero else mret (U64.quot a b).
Definition u64_sub (a b : Z) : M Z := record (EvSub a b) ;; mret (U64.sub a b).
Definition u64_mul (a b : Z) : M Z := record (EvMul a b) ;; mret (U64.mul a b).
Definition u64_add (a b : Z) : M Z := record (EvAdd a b) ;; mret (U64.add a b).

(** ** The splitter, function by function *)

Definition startBindVarName : string := "_splitquery_start".
Definition endBindVarName : string := "_splitquery_end".

Definition NewQuerySplitter (sql : string) (bindVariables : mapref)
    (splitColumn : string) (splitCount : Z) (se : TableIdent -> option Table)
  : QuerySplitter :=
  let splitCount := if splitCount <? 1 then 1 else splitCount in
  {| sql := sql;
     bindVariables := bindVariables;
     splitCount := splitCount;
     se := se;
     sel := None;
     tableName := "";
     splitColumn := NewColIdent splitColumn;
     rowCount := 0 |}.

Definition is_some {A} (o : option A) : bool :=
  match o with Some _ => true | None => false end.

(** The clauses and the shape of the FROM list that [validateQuery] refuses *)
Definition unsupported_shape (s : Select) : bool :=
  negb (String.eqb (Distinct s) "") || is_some (GroupBy s)
  || is_some (Having s) || negb (Z.of_nat (length (From s)) =? 1)
  || is_some (OrderBy s) || is_some (Limit s)
  || negb (String.eqb (Lock s) "").

(** The two nested loops over the indexes and their columns *)
Definition indexed (splitColumn : ColIdent) (table : Table) : bool :=
  existsb (fun index => existsb (fun column => Equal splitColumn column)
                                (IColumns index))
          (Indexes table).

Definition not_indexed_format : string :=
  "split column is not indexed or does not exist in table schema, SplitColumn: %v, Table: %v".

Definition validateQuery : M (option error) :=
  qs <- get_this;
  match Parse (sql qs) with
  | inl err => mret (Some err)
  | inr statement =>
      let sel' := match statement with
                  | SelectStmt s => Some s
                  | OtherStmt _ => None
                  end in
      put_this (set_sel qs sel') ;;
      match sel' with
      | None => mret (Some (Errorf "not a select statement" []))
      | Some s =>
          if unsupported_shape s then mret (Some (Errorf "unsupported query" []))
          else
            match From s with
            | [] => panic IndexOutOfRange
            | AliasedTableExpr e _ _ :: _ =>
                qs <- get_this;
                put_this (set_tableName qs (GetTableName e)) ;;
                qs <- get_this;
                if IsEmpty (tableName qs)
                then mret (Some (Errorf "not a simple table expression" []))
                else
                  match se qs (tableName qs) with
                  | None => mret (Some (Errorf "can't find table in schema" []))
                  | Some table =>
                      if Z.of_nat (length (PKColumns table)) =? 0
                      then mret (Some (Errorf "no primary keys" []))
                      else if negb (IsEmpty (splitColumn qs))
                      then
                        if indexed (splitColumn qs) table then mret None
                        else mret (Some (Errorf not_indexed_format
                                           [ArgColIdent (splitColumn qs);
                                            ArgTable table]))
                      else
                        put_this (set_splitColumn qs
                                    (CName (GetPKColumn table 0))) ;;
                        mret None
                  end
            | _ :: _ => mret (Some (Errorf "unsupported query" []))
            end
      end
  end.

(** [getWhereClause]: the range predicate for one split, conjoined with the
    original WHERE clause; the bounds go into [bindVars]. *)
Definition getWhereClause (whereClause : option Where) (bindVars : mapref)
    (start end_ : Value) : M (option Where) :=
  if IsNull start && IsNull end_ then mret whereClause
  else
    qs <- get_this;
    let pk := ColName (splitColumn qs) in
    startClause <-
      (if negb (IsNull start) then
         map_assign bindVars startBindVarName (ToNative start) ;;
         mret (Some (ComparisonExpr GreaterEqualStr pk
                       (NewValArg (":" ++ startBindVarName))))
       else mret None);
    endClause <-
      (if negb (IsNull end_) then
         map_assign bindVars endBindVarName (ToNative end_) ;;
         mret (Some (ComparisonExpr LessThanStr pk
                       (NewValArg (":" ++ endBindVarName))))
       else mret None);
    let clauses :=
      match startClause with
      | None => match endClause with Some e => e | None => NilExpr end
      | Some s =>
          match endClause with
          | None => s
          | Some e => AndExpr s e
          end
      end in
    let clauses :=
      match whereClause with
      | Some w => AndExpr (ParenExpr (WExpr w)) (ParenExpr clauses)
      | None => clauses
      end in
    mret (Some {| WType := WhereStr; WExpr := clauses |}).

(** The guard the three numeric variants share: no result, not exactly one
    row, or a null minimum or maximum.  It yields the two values when it
    lets the computation go on. *)
Definition min_max_row (pkMinMax : option Result) : M (option (Value * Value)) :=
  match pkMinMax with
  | None => mret None
  | Some r =>
      if negb (Z.of_nat (length (Rows r)) =? 1) then mret None
      else
        v0 <- at_index (Rows r) 0 0;
        if IsNull v0 then mret None
        else
          v1 <- at_index (Rows r) 0 1;
          if IsNull v1 then mret None else mret (Some (v0, v1))
  end.

Definition Boundaries : Type := (list Value * option error)%type.

(** The loop body common to the four variants: build the value, append it *)
Definition append_built (g : GoVal) (boundaries : list Value)
  : M (list Value + Boundaries) :=
  match BuildValue g with
  | inl err => mret (inr ([], Some err))
  | inr v => mret (inl (boundaries ++ [v]))
  end.

Definition finish (r : list Value + Boundaries) : M Boundaries :=
  match r with
  | inl boundaries => mret (boundaries, None)
  | inr out => mret out
  end.

Definition splitBoundariesIntColumn (pkMinMax : option Result) : M Boundaries :=
  let boundaries : list Value := [] in
  mm <- min_max_row pkMinMax;
  match mm with
  | None => mret (boundaries, None)
  | Some (minNumeric, maxNumeric) =>
      match ParseInt64 minNumeric with
      | inl err => mret ([], Some err)
      | inr min =>
          match ParseInt64 maxNumeric with
          | inl err => mret ([], Some err)
          | inr max =>
              let err : option error := None in
              qs <- get_this;
              interval <- i64_div (I64.sub max min) (splitCount qs);
              if interval =? 0 then mret ([], err)
              else
                put_this (set_rowCount qs interval) ;;
                r <- for_range 1 (splitCount qs)
                       (fun i boundaries =>
                          append_built
                            (of_int64 (I64.add min (I64.mul interval i)))
                            boundaries)
                       boundaries;
                finish r
          end
      end
  end.

Definition splitBoundariesUintColumn (pkMinMax : option Result) : M Boundaries :=
  let boundaries : list Value := [] in
  mm <- min_max_row pkMinMax;
  match mm with
  | None => mret (boundaries, None)
  | Some (minNumeric, maxNumeric) =>
      match ParseUint64 minNumeric with
      | inl err => mret ([], Some err)
      | inr min =>
          match ParseUint64 maxNumeric with
          | inl err => mret ([], Some err)
          | inr max =>
              let err : option error := None in
              qs <- get_this;
              d <- u64_sub max min;
              interval <- u64_div d (U64.wrap (splitCount qs));
              if interval =? 0 then mret ([], err)
              else
                put_this (set_rowCount qs (I64.wrap interval)) ;;
                r <- for_range 1 (U64.wrap (splitCount qs))
                       (fun i boundaries =>
                          p <- u64_mul interval i;
                          b <- u64_add min p;
                          append_built (of_uint64 b) boundaries)
                       boundaries;
                finish r
          end
      end
  end.

Definition splitBoundariesFloatColumn (pkMinMax : option Result) : M Boundaries :=
  let boundaries : list Value := [] in
  mm <- min_max_row pkMinMax;
  match mm with
  | None => mret (boundaries, None)
  | Some (v0, v1) =>
      match ParseFloat (Value_String v0) with
      | inl err => mret ([], Some err)
      | inr min =>
          match ParseFloat (Value_String v1) with
          | inl err => mret ([], Some err)
          | inr max =>
              let err : option error := None in
              qs <- get_this;
              let interval :=
                f64_div (f64_sub max min) (f64_of_int (splitCount qs)) in
              if f64_is_zero interval then mret ([], err)
              else
                put_this (set_rowCount qs (f64_to_int64 interval)) ;;
                r <- for_range 1 (splitCount qs)
                       (fun i boundaries =>
                          let boundary :=
                            f64_add min (f64_mul interval (f64_of_int i)) in
                          append_built (of_float64 boundary) boundaries)
                       boundaries;
                finish r
          end
      end
  end.

Definition splitBoundariesStringColumn : M Boundaries :=
  qs <- get_this;
  let splitRange := I64.add 4294967295 1 in
  splitSize <- i64_div splitRange (splitCount qs);
  put_this (set_rowCount qs splitSize) ;;
  r <- for_range 1 (splitCount qs)
         (fun i boundaries =>
            let buf := PutUint32 (U32.mul (U32.wrap splitSize) (U32.wrap i)) in
            append_built (of_bytes buf) boundaries)
         [];
  finish r.

Definition splitBoundaries (columnType : Z) (pkMinMax : option Result)
  : M Boundaries :=
  if IsSigned columnType then splitBoundariesIntColumn pkMinMax
  else if IsUnsigned columnType then splitBoundariesUintColumn pkMinMax
  else if IsFloat columnType then splitBoundariesFloatColumn pkMinMax
  else if IsBinary columnType then splitBoundariesStringColumn
  else mret ([], None).

(** [qs.sel.Where], read and written through the pointer [qs.sel] *)
Definition read_Where : M (option Where) :=
  qs <- get_this;
  match sel qs with
  | None => panic NilPointer
  | Some s => mret (SelWhere s)
  end.

Definition write_Where (w : option Where) : M unit :=
  qs <- get_this;
  match sel qs with
  | None => panic NilPointer
  | Some s => put_this (set_sel qs (Some (set_Where s w)))
  end.

Definition deref_sel : M Select :=
  qs <- get_this;
  match sel qs with
  | None => panic NilPointer
  | Some s => mret s
  end.

(** The body of [for _, end := range boundaries] in [split] *)
Fixpoint split_range (boundaries : list Value) (whereClause : option Where)
    (start : Value) (splits : list QuerySplit) : M (list QuerySplit) :=
  match boundaries with
  | [] => mret splits
  | end_ :: rest =>
      qs <- get_this;
      bindVars <- make_map;
      map_copy_into bindVars (bindVariables qs) ;;
      w <- getWhereClause whereClause bindVars start end_;
      write_Where w ;;
      qs <- get_this;
      s <- deref_sel;
      let split := {| Sql := SelectString s;
                      BindVariables := bindVars;
                      RowCount := rowCount qs |} in
      split_range rest whereClause end_ (splits ++ [split])
  end.

Definition split (columnType : Z) (pkMinMax : option Result)
  : M (list QuerySplit * option error) :=
  b <- splitBoundaries columnType pkMinMax;
  let '(boundaries, err) := b in
  match err with
  | Some e => mret ([], Some e)
  | None =>
      let splits : list QuerySplit := [] in
      if Z.of_nat (length boundaries) =? 0 then
        qs <- get_this;
        mret (splits ++ [{| Sql := sql qs;
                            BindVariables := bindVariables qs;
                            RowCount := 0 |}], err)
      else
        let boundaries := boundaries ++ [NullValue] in
        whereClause <- read_Where;
        let start := NullValue in
        splits <- split_range boundaries whereClause start splits;
        write_Where whereClause ;;
        mret (splits, err)
  end.

(** ** Reasoning about the state monad *)

Definition with_this (st : State) (q : QuerySplitter) : State :=
  mkState q (store st) (arith st).
Definition with_store (st : State) (h : Store) : State :=
  mkState (this st) h (arith st).

Ltac munfold :=
  unfold mbind, mret, panic, get_this, put_this, get_store, put_store,
         record, with_this, with_store in *.

Ltac msimpl := munfold; cbn [this store arith] in *.

Lemma set_Where_same (s : Select) : set_Where s (SelWhere s) = s.
Proof. by destruct s. Qed.

Lemma set_sel_same (q : QuerySplitter) : set_sel q (sel q) = q.
Proof. by destruct q. Qed.

Lemma with_store_same (st : State) : with_store st (store st) = st.
Proof. by destruct st. Qed.

(** *** [getWhereClause] *)

(** The range predicate of a split, as an expression over the split column *)
Definition startClause_of (c : ColIdent) : Expr :=
  ComparisonExpr ">=" (ColName c) (ValArg ":_splitquery_start").
Definition endClause_of (c : ColIdent) : Expr :=
  ComparisonExpr "<" (ColName c) (ValArg ":_splitquery_end").

(** [(originalExpr) AND (rangeExpr)], or the range alone without an original *)
Definition conjoin (whereClause : option Where) (range : Expr) : option Where :=
  Some {| WType := "where";
          WExpr := match whereClause with
                   | Some w => AndExpr (ParenExpr (WExpr w)) (ParenExpr range)
                   | None => range
                   end |}.

(** Writing key [k] of the map object [l] *)
Definition assign (l : loc) (k : string) (v : Native) (h : Store) : Store :=
  <[l := <[k := v]> (default ∅ (h !! l))]> h.

Lemma map_assign_run (l : loc) (k : string) (v : Native) (st : State) :
  map_assign (Some l) k v st = Ret tt (with_store st (assign l k v (store st))).
Proof. done. Qed.

Lemma getWhereClause_eval (whereClause : option Where) (l : loc)
    (start end_ : Value) (st : State) :
  let c := splitColumn (this st) in
  let h := store st in
  getWhereClause whereClause (Some l) start end_ st =
    match IsNull start, IsNull end_ with
    | true, true => Ret whereClause st
    | false, true =>
        Ret (conjoin whereClause (startClause_of c))
            (with_store st (assign l "_splitquery_start" (ToNative start) h))
    | true, false =>
        Ret (conjoin whereClause (endClause_of c))
            (with_store st (assign l "_splitquery_end" (ToNative end_) h))
    | false, false =>
        Ret (conjoin whereClause (AndExpr (startClause_of c) (endClause_of c)))
            (with_store st
               (assign l "_splitquery_end" (ToNative end_)
                  (assign l "_splitquery_start" (ToNative start) h)))
    end.
Proof.
  intros c h. unfold getWhereClause.
  destruct (IsNull start), (IsNull end_); cbn [andb negb].
  - done.
  - msimpl. rewrite map_assign_run. cbn. by destruct st.
  - msimpl. rewrite map_assign_run. cbn. by destruct st.
  - msimpl. rewrite !map_assign_run. cbn. done.
Qed.

(** *** Integer facts *)

Lemma I64_wrap_small (z : Z) : I64.in_range z -> I64.wrap z = z.
Proof.
  unfold I64.in_range, I64.min_int, I64.max_int, I64.wrap. intros H.
  rewrite Z.mod_small; lia.
Qed.

Lemma U64_wrap_small (z : Z) : U64.in_range z -> U64.wrap z = z.
Proof. unfold U64.in_range, U64.wrap. intros H. by apply Z.mod_small. Qed.

(** With a positive divisor and a non-negative dividend, [interval * i]
    stays below the dividend for every [i] short of the divisor. *)
Lemma interval_steps (d n i : Z) :
  0 <= d -> 0 < n -> 0 <= i < n -> 0 <= (d / n) * i <= d - d / n.
Proof.
  intros Hd Hn Hi.
  assert (0 <= d / n) by (apply Z.div_pos; lia).
  assert (n * (d / n) <= d) by (apply Z.mul_div_le; lia).
  split; nia.
Qed.

(** *** Loops *)

Lemma seqZ_of_to_nat (m n : Z) : seqZ m (Z.of_nat (Z.to_nat n)) = seqZ m n.
Proof. unfold seqZ. by rewrite Nat2Z.id. Qed.

Lemma seqZ_step (m : Z) (n : nat) :
  seqZ m (Z.of_nat (Datatypes.S n)) = m :: seqZ (m + 1) (Z.of_nat n).
Proof.
  rewrite seqZ_cons by lia. f_equal. f_equal; lia.
Qed.

(** A loop whose body appends [f i] and transforms the state by [g i] *)
Lemma for_loop_appends {A R} (f : Z -> A) (g : Z -> State -> State)
    (body : Z -> list A -> M (list A + R)) (n : nat) :
  forall (i : Z) (acc : list A) (st : State),
    (forall j acc' st', body j acc' st' = Ret (inl (acc' ++ [f j])) (g j st')) ->
    for_loop n i body acc st =
      Ret (inl (acc ++ map f (seqZ i (Z.of_nat n))))
          (foldl (fun s j => g j s) st (seqZ i (Z.of_nat n))).
Proof.
  induction n as [|n IH]; intros i acc st Hbody.
  - cbn. unfold mret. by rewrite app_nil_r.
  - rewrite seqZ_step. cbn [for_loop]. unfold mbind at 1. rewrite Hbody.
    rewrite IH by done. cbn [map foldl]. by rewrite <- app_assoc.
Qed.

Lemma foldl_id {A B} (l : list B) (a : A) : foldl (fun s _ => s) a l = a.
Proof. by induction l. Qed.

Lemma for_range_appends {A R} (f : Z -> A) (body : Z -> list A -> M (list A + R))
    (lo hi : Z) (acc : list A) (st : State) :
  (forall j acc' st', body j acc' st' = Ret (inl (acc' ++ [f j])) st') ->
  for_range lo hi body acc st = Ret (inl (acc ++ map f (seqZ lo (hi - lo)))) st.
Proof.
  intros Hbody. unfold for_range.
  rewrite (for_loop_appends f (fun _ s => s)) by done.
  by rewrite foldl_id, seqZ_of_to_nat.
Qed.

(** *** The guard on the min/max result *)

(** The inputs the numeric variants do not split: no result, a number of
    rows other than one, a null minimum, or a null maximum *)
Definition no_min_max (pkMinMax : option Result) : bool :=
  match pkMinMax with
  | None => true
  | Some r =>
      match Rows r with
      | [row] =>
          match row with
          | [] => false
          | v0 :: rest =>
              IsNull v0 || match rest with
                           | v1 :: _ => IsNull v1
                           | [] => false
                           end
          end
      | _ => true
      end
  end.

Lemma min_max_row_none (pkMinMax : option Result) (st : State) :
  no_min_max pkMinMax = true -> min_max_row pkMinMax st = Ret None st.
Proof.
  destruct pkMinMax as [[rows]|]; [|done].
  unfold no_min_max, min_max_row. cbn [Rows].
  destruct rows as [|row [|row' rows]]; [done| |].
  2:{ intros _. cbn [length].
      destruct (Z.eqb_spec (Z.of_nat (S (S (length rows)))) 1); [lia|done]. }
  destruct row as [|v0 rest]; [done|].
  cbn. msimpl. destruct (IsNull v0) eqn:H0; [done|].
  destruct rest as [|v1 rest]; [done|]. cbn. intros ->. done.
Qed.

Lemma min_max_row_some (r : Result) (v0 v1 : Value) (rest : list Value)
    (st : State) :
  Rows r = [v0 :: v1 :: rest] -> IsNull v0 = false -> IsNull v1 = false ->
  min_max_row (Some r) st = Ret (Some (v0, v1)) st.
Proof.
  intros HR H0 H1. unfold min_max_row. rewrite HR. cbn. msimpl.
  by rewrite H0, H1.
Qed.

Lemma append_built_run (g : GoVal) (boundaries : list Value) (st : State) :
  exists v, BuildValue g = inr v /\ IsNull v = false /\
    append_built g boundaries st = Ret (inl (boundaries ++ [v])) st.
Proof. destruct g; eexists; (split; [reflexivity|split; reflexivity]). Qed.

(** *** What each numeric variant computes on a one-row, non-null result *)

Definition int_boundary (min interval i : Z) : Value :=
  MakeTrusted Int64 (AppendInt (I64.add min (I64.mul interval i))).

Lemma splitBoundariesIntColumn_run (r : Result) (v0 v1 : Value)
    (rest : list Value) (min max : Z) (st : State) :
  Rows r = [v0 :: v1 :: rest] -> IsNull v0 = false -> IsNull v1 = false ->
  ParseInt64 v0 = inr min -> ParseInt64 v1 = inr max ->
  splitCount (this st) <> 0 ->
  let sc := splitCount (this st) in
  let interval := I64.quot (I64.sub max min) sc in
  splitBoundariesIntColumn (Some r) st =
    if interval =? 0 then Ret ([], None) st
    else Ret (map (int_boundary min interval) (seqZ 1 (sc - 1)), None)
             (with_this st (set_rowCount (this st) interval)).
Proof.
  intros HR H0 H1 Hmin Hmax Hsc sc interval.
  unfold splitBoundariesIntColumn. unfold mbind at 1.
  rewrite (min_max_row_some r v0 v1 rest) by done.
  rewrite Hmin, Hmax. unfold i64_div. msimpl.
  destruct (Z.eqb_spec (splitCount (this st)) 0) as [|_]; [done|].
  fold sc. fold interval. destruct (interval =? 0); [done|].
  rewrite (for_range_appends (int_boundary min interval)).
  - done.
  - intros j acc' st'. done.
Qed.

Definition uint_boundary (min interval i : Z) : Value :=
  MakeTrusted Uint64 (AppendUint (U64.add min (U64.mul interval i))).

(** The operations of one turn of the unsigned loop *)
Definition uint_turn (min interval i : Z) : list ArithEvent :=
  [EvMul interval i; EvAdd min (U64.mul interval i)].

Definition with_arith (st : State) (evs : list ArithEvent) : State :=
  mkState (this st) (store st) (arith st ++ evs).

Lemma foldl_record (f : Z -> list ArithEvent) (l : list Z) (st : State) :
  foldl (fun s j => with_arith s (f j)) st l = with_arith st (concat (map f l)).
Proof.
  revert st. induction l as [|x l IH]; intros st; cbn.
  - unfold with_arith. rewrite app_nil_r. by destruct st.
  - rewrite IH. unfold with_arith. cbn. by rewrite <- app_assoc.
Qed.

Lemma splitBoundariesUintColumn_run (r : Result) (v0 v1 : Value)
    (rest : list Value) (min max : Z) (st : State) :
  Rows r = [v0 :: v1 :: rest] -> IsNull v0 = false -> IsNull v1 = false ->
  ParseUint64 v0 = inr min -> ParseUint64 v1 = inr max ->
  U64.wrap (splitCount (this st)) <> 0 ->
  let sc := U64.wrap (splitCount (this st)) in
  let interval := U64.quot (U64.sub max min) sc in
  splitBoundariesUintColumn (Some r) st =
    if interval =? 0 then Ret ([], None) (with_arith st [EvSub max min])
    else Ret (map (uint_boundary min interval) (seqZ 1 (sc - 1)), None)
             (with_arith
                (with_this st (set_rowCount (this st) (I64.wrap interval)))
                (EvSub max min
                   :: concat (map (uint_turn min interval) (seqZ 1 (sc - 1))))).
Proof.
  intros HR H0 H1 Hmin Hmax Hsc sc interval.
  unfold splitBoundariesUintColumn. unfold mbind at 1.
  rewrite (min_max_row_some r v0 v1 rest) by done.
  rewrite Hmin, Hmax. unfold u64_div, u64_sub. msimpl.
  fold sc. destruct (Z.eqb_spec sc 0) as [|_]; [done|].
  fold interval. destruct (interval =? 0); [done|].
  unfold for_range.
  rewrite (for_loop_appends (uint_boundary min interval)
             (fun j s => with_arith s (uint_turn min interval j))).
  - rewrite foldl_record, seqZ_of_to_nat. cbn.
    unfold with_arith. cbn. by rewrite <- app_assoc.
  - intros j acc' st'. unfold u64_mul, u64_add. msimpl.
    unfold with_arith, uint_turn. cbn. by rewrite <- app_assoc.
Qed.

Definition float_boundary (min interval : float64) (i : Z) : Value :=
  MakeTrusted Float64
    (AppendFloat (f64_add min (f64_mul interval (f64_of_int i)))).

Lemma splitBoundariesFloatColumn_run (r : Result) (v0 v1 : Value)
    (rest : list Value) (min max : float64) (st : State) :
  Rows r = [v0 :: v1 :: rest] -> IsNull v0 = false -> IsNull v1 = false ->
  ParseFloat (Value_String v0) = inr min ->
  ParseFloat (Value_String v1) = inr max ->
  let sc := splitCount (this st) in
  let interval := f64_div (f64_sub max min) (f64_of_int sc) in
  splitBoundariesFloatColumn (Some r) st =
    if f64_is_zero interval then Ret ([], None) st
    else Ret (map (float_boundary min interval) (seqZ 1 (sc - 1)), None)
             (with_this st (set_rowCount (this st) (f64_to_int64 interval))).
Proof.
  intros HR H0 H1 Hmin Hmax sc interval.
  unfold splitBoundariesFloatColumn. unfold mbind at 1.
  rewrite (min_max_row_some r v0 v1 rest) by done.
  rewrite Hmin, Hmax. msimpl. fold sc. fold interval.
  destruct (f64_is_zero interval); [done|].
  rewrite (for_range_appends (float_boundary min interval)).
  - done.
  - intros j acc' st'. done.
Qed.

Definition string_boundary (splitSize i : Z) : Value :=
  MakeTrusted VarBinary
    (PutUint32 (U32.mul (U32.wrap splitSize) (U32.wrap i))).

Lemma splitBoundariesStringColumn_run (st : State) :
  splitCount (this st) <> 0 ->
  let sc := splitCount (this st) in
  let splitSize := I64.quot 4294967296 sc in
  splitBoundariesStringColumn st =
    Ret (map (string_boundary splitSize) (seqZ 1 (sc - 1)), None)
        (with_this st (set_rowCount (this st) splitSize)).
Proof.
  intros Hsc sc splitSize. unfold splitBoundariesStringColumn, i64_div.
  msimpl. destruct (Z.eqb_spec (splitCount (this st)) 0) as [|_]; [done|].
  change (I64.add 4294967295 1) with 4294967296.
  fold sc. fold splitSize.
  rewrite (for_range_appends (string_boundary splitSize)).
  - done.
  - intros j acc' st'. done.
Qed.

(** *** Map objects *)

(** A map reference is valid when it is nil or names an object of the store. *)
Definition mapref_valid (h : Store) (r : mapref) : Prop :=
  match r with
  | Some l => l ∈ dom h
  | None => True
  end.

Lemma make_map_run (st : State) :
  make_map st = Ret (Some (fresh (dom (store st))))
                    (with_store st (<[fresh (dom (store st)) := ∅]> (store st))).
Proof. done. Qed.

Lemma map_copy_into_run (l : loc) (src : mapref) (d : gmap string Native)
    (st : State) :
  store st !! l = Some d ->
  map_copy_into (Some l) src st =
    Ret tt (with_store st (<[l := map_contents (store st) src ∪ d]> (store st))).
Proof.
  unfold map_copy_into. unfold mbind at 1, get_store.
  generalize (map_contents (store st) src). intros m. revert m st.
  apply (map_fold_weak_ind
           (fun (r : M unit) (m : gmap string Native) =>
              forall st, store st !! l = Some d ->
                r st = Ret tt (with_store st (<[l := m ∪ d]> (store st))))).
  - intros st Hl. rewrite (left_id_L ∅ (∪)), insert_id by done.
    by rewrite with_store_same.
  - intros k v m r _ IH st Hl. unfold mbind. rewrite (IH st Hl).
    rewrite map_assign_run. unfold with_store, assign. cbn.
    rewrite lookup_insert_eq, insert_insert_eq. cbn [from_option]. unfold id.
    by rewrite insert_union_l.
Qed.

Lemma map_contents_fresh (h : Store) (r : mapref) (m : gmap string Native) :
  mapref_valid h r ->
  map_contents (<[fresh (dom h) := m]> h) r = map_contents h r.
Proof.
  destruct r as [l|]; [|done]. cbn. intros Hl.
  rewrite lookup_insert_ne; [done|].
  intros <-. by apply (is_fresh (dom h)).
Qed.

Lemma mapref_valid_insert (h : Store) (r : mapref) (l : loc)
    (m : gmap string Native) :
  mapref_valid h r -> mapref_valid (<[l := m]> h) r.
Proof. destruct r; [|done]. cbn. rewrite dom_insert_L. set_solver. Qed.

(** *** One split *)

(** The WHERE clause and the bind variables of the split between [start]
    and [end_], as [getWhereClause] leaves them *)
Definition range_where (c : ColIdent) (w : option Where) (start end_ : Value)
  : option Where :=
  match IsNull start, IsNull end_ with
  | true, true => w
  | false, true => conjoin w (startClause_of c)
  | true, false => conjoin w (endClause_of c)
  | false, false => conjoin w (AndExpr (startClause_of c) (endClause_of c))
  end.

Definition range_map (orig : gmap string Native) (start end_ : Value)
  : gmap string Native :=
  let m := if IsNull start then orig
           else <["_splitquery_start" := ToNative start]> orig in
  if IsNull end_ then m else <["_splitquery_end" := ToNative end_]> m.

Lemma getWhereClause_run (w : option Where) (l : loc) (start end_ : Value)
    (orig : gmap string Native) (st : State) :
  store st !! l = Some orig ->
  getWhereClause w (Some l) start end_ st =
    Ret (range_where (splitColumn (this st)) w start end_)
        (with_store st (<[l := range_map orig start end_]> (store st))).
Proof.
  intros Hl. rewrite getWhereClause_eval. unfold range_where, range_map, assign.
  destruct (IsNull start), (IsNull end_); cbn [with_store store].
  - rewrite insert_id by done. by rewrite with_store_same.
  - by rewrite Hl.
  - by rewrite Hl.
  - by rewrite lookup_insert_eq, insert_insert_eq, Hl.
Qed.

(** *** The loop of [split] *)

(** The splits the loop emits and the store it leaves, for a statement [s],
    an original WHERE clause [w] and the original bind variables [src] *)
Fixpoint range_splits (c : ColIdent) (rc : Z) (s : Select) (w : option Where)
    (src : mapref) (start : Value) (boundaries : list Value)
    (h : Store) : list QuerySplit * Store :=
  match boundaries with
  | [] => ([], h)
  | end_ :: rest =>
      let l := fresh (dom h) in
      let orig := map_contents (<[l := ∅]> h) src in
      let out := range_splits c rc s w src end_ rest
                   (<[l := range_map orig start end_]> h) in
      ({| Sql := SelectString (set_Where s (range_where c w start end_));
          BindVariables := Some l;
          RowCount := rc |} :: fst out, snd out)
  end.

Lemma split_range_run (w : option Where) (s : Select) (boundaries : list Value) :
  forall (start : Value) (splits : list QuerySplit) (st : State)
         (cur : option Where),
    sel (this st) = Some (set_Where s cur) ->
    let out := range_splits (splitColumn (this st)) (rowCount (this st)) s w
                 (bindVariables (this st)) start boundaries (store st) in
    exists cur',
      split_range boundaries w start splits st =
        Ret (splits ++ fst out)
            (mkState (set_sel (this st) (Some (set_Where s cur')))
                     (snd out) (arith st)).
Proof.
  induction boundaries as [|end_ rest IH]; intros start splits st cur Hsel.
  - exists cur. cbn. unfold mret. rewrite app_nil_r, <- Hsel, set_sel_same.
    by destruct st.
  - cbn [split_range range_splits].
    set (h := store st). set (l := fresh (dom h)).
    set (orig := map_contents (<[l := ∅]> h) (bindVariables (this st))).
    set (w1 := range_where (splitColumn (this st)) w start end_).
    set (st1 := mkState (set_sel (this st) (Some (set_Where s w1)))
                        (<[l := range_map orig start end_]> h) (arith st)).
    destruct (IH end_
                (splits ++ [{| Sql := SelectString (set_Where s w1);
                               BindVariables := Some l;
                               RowCount := rowCount (this st) |}])
                st1 w1) as [cur' Hrun].
    { done. }
    exists cur'. cbn [fst snd].
    unfold mbind at 1. unfold get_this at 1.
    unfold mbind at 1. rewrite make_map_run.
    unfold mbind at 1.
    rewrite (map_copy_into_run l _ ∅)
      by (cbn; apply lookup_insert_eq).
    cbn [with_store store this]. fold h l orig.
    rewrite (right_id_L ∅ (∪)), insert_insert_eq.
    unfold mbind at 1.
    rewrite (getWhereClause_run w l start end_ orig)
      by (cbn; apply lookup_insert_eq).
    cbn [with_store store this arith]. rewrite insert_insert_eq. fold w1.
    unfold write_Where, deref_sel. msimpl. rewrite Hsel. cbn [sel set_sel].
    change (set_Where (set_Where s cur) w1) with (set_Where s w1).
    subst st1 w1 orig l h.
    cbn [this store arith sel set_sel splitColumn rowCount bindVariables] in *.
    rewrite <- app_assoc in Hrun. cbn [app] in Hrun.
    exact Hrun.
Qed.

Section RangeSplits.
Variables (c : ColIdent) (rc : Z) (s : Select) (w : option Where)
          (src : mapref).

Lemma range_splits_length (boundaries : list Value) :
  forall start h,
    length (fst (range_splits c rc s w src start boundaries h))
    = length boundaries.
Proof.
  induction boundaries as [|e rest IH]; intros start h; cbn; [done|].
  by rewrite IH.
Qed.

Lemma range_splits_RowCount (boundaries : list Value) :
  forall start h,
    Forall (fun sp => RowCount sp = rc)
           (fst (range_splits c rc s w src start boundaries h)).
Proof.
  induction boundaries as [|e rest IH]; intros start h; cbn; [done|].
  constructor; [done|apply IH].
Qed.

(** The loop allocates; it never writes to a map that was there before. *)
Lemma range_splits_old (boundaries : list Value) :
  forall start h l,
    l ∈ dom h ->
    (snd (range_splits c rc s w src start boundaries h)) !! l = h !! l.
Proof.
  induction boundaries as [|e rest IH]; intros start h l Hl; cbn; [done|].
  rewrite IH by (rewrite dom_insert_L; set_solver).
  rewrite lookup_insert_ne; [done|].
  intros <-. by apply (is_fresh (dom h)).
Qed.

(** Split [i] runs from the boundary before it to boundary [i]; its map
    is a new object holding the original bindings and the bounds. *)
Lemma range_splits_lookup (boundaries : list Value) :
  forall start h i sp,
    mapref_valid h src ->
    (fst (range_splits c rc s w src start boundaries h)) !! i = Some sp ->
    exists a e l,
      (start :: boundaries) !! i = Some a /\ boundaries !! i = Some e /\
      BindVariables sp = Some l /\ (l ∉ dom h) /\
      (snd (range_splits c rc s w src start boundaries h)) !! l
        = Some (range_map (map_contents h src) a e) /\
      Sql sp = SelectString (set_Where s (range_where c w a e)) /\
      RowCount sp = rc.
Proof.
  induction boundaries as [|e rest IH]; intros start h i sp Hvalid;
    cbn [range_splits fst snd]; [done|].
  rewrite map_contents_fresh by done.
  destruct i as [|i]; cbn [lookup list_lookup].
  - intros [= <-]. exists start, e, (fresh (dom h)). cbn.
    repeat split; try done.
    + apply is_fresh.
    + rewrite range_splits_old by (rewrite dom_insert_L; set_solver).
      apply lookup_insert_eq.
  - intros Hsp.
    destruct (IH _ _ _ _ (mapref_valid_insert _ _ _ _ Hvalid) Hsp)
      as (a & e' & l & Ha & He & Hb & Hl & Hm & Hq & Hr).
    rewrite map_contents_fresh in Hm by done.
    exists a, e', l. repeat split; try done.
    rewrite dom_insert_L in Hl. set_solver.
Qed.


End RangeSplits.

(** *** Postconditions: what holds of the result and the state whenever a
    computation returns *)

Definition post {A} (Q : A -> State -> Prop) (o : Outcome A) : Prop :=
  match o with
  | Ret a s => Q a s
  | Panic _ => True
  end.

Lemma post_bind {A B} (P : A -> State -> Prop) (Q : B -> State -> Prop)
    (m : M A) (k : A -> M B) (st : State) :
  post P (m st) -> (forall a s, P a s -> post Q (k a s)) ->
  post Q (mbind m k st).
Proof. unfold mbind. destruct (m st); cbn; [auto|done]. Qed.

Lemma post_Ret {A} (Q : A -> State -> Prop) (o : Outcome A) (a : A) (s : State) :
  post Q o -> o = Ret a s -> Q a s.
Proof. by intros H ->. Qed.

Lemma for_loop_post {S R} (I : S -> State -> Prop) (J : R -> State -> Prop)
    (body : Z -> S -> M (S + R)) (n : nat) :
  (forall j a s, I a s ->
     post (fun r s' => match r with inl a' => I a' s' | inr out => J out s' end)
          (body j a s)) ->
  forall i acc st, I acc st ->
    post (fun r s' => match r with inl a' => I a' s' | inr out => J out s' end)
         (for_loop n i body acc st).
Proof.
  intros Hbody. induction n as [|n IH]; intros i acc st HI; cbn; [done|].
  eapply post_bind; [by apply Hbody|].
  intros [a'|out] s Hr; cbn; [by apply IH|done].
Qed.

(** The part of the state that computing boundaries leaves alone:
    everything but the row-count estimate and the record of operations *)
Definition kept (st : State) : QuerySplitter * Store :=
  (set_rowCount (this st) 0, store st).

Definition non_null (v : Value) : Prop := IsNull v = false.

Definition boundaries_ok (st0 : State) (b : Boundaries) (st : State) : Prop :=
  Forall non_null (fst b) /\ kept st = kept st0.

Lemma min_max_row_post (pkMinMax : option Result) (st : State) :
  post (fun _ s => s = st) (min_max_row pkMinMax st).
Proof.
  destruct pkMinMax as [r|]; [|done]. unfold min_max_row, at_index.
  destruct (negb _); [done|].
  destruct (Rows r !! 0%nat) as [row|]; [|done].
  msimpl. destruct (row !! 0%nat) as [v0|]; [|done].
  destruct (IsNull v0); [done|].
  destruct (row !! 1%nat) as [v1|]; [|done].
  by destruct (IsNull v1).
Qed.

Lemma append_built_post (st0 : State) (g : GoVal) (acc : list Value)
    (st : State) :
  Forall non_null acc /\ kept st = kept st0 ->
  post (fun r s' =>
          match r with
          | inl a' => Forall non_null a' /\ kept s' = kept st0
          | inr out => boundaries_ok st0 out s'
          end)
       (append_built g acc st).
Proof.
  intros [Hacc Hk].
  destruct (append_built_run g acc st) as (v & _ & Hv & ->). cbn.
  split; [|done]. apply Forall_app. split; [done|]. by constructor.
Qed.

Lemma finish_post (st0 : State) (r : list Value + Boundaries) (st : State) :
  match r with
  | inl a' => Forall non_null a' /\ kept st = kept st0
  | inr out => boundaries_ok st0 out st
  end ->
  post (boundaries_ok st0) (finish r st).
Proof. by destruct r. Qed.

Ltac loop_post st0 :=
  eapply post_bind;
  [ apply (for_loop_post
             (fun acc s => Forall non_null acc /\ kept s = kept st0)
             (boundaries_ok st0)); [|by split]
  | intros r s Hr; by apply finish_post ].

Lemma splitBoundariesIntColumn_post (pkMinMax : option Result) (st : State) :
  post (boundaries_ok st) (splitBoundariesIntColumn pkMinMax st).
Proof.
  unfold splitBoundariesIntColumn.
  eapply post_bind; [apply min_max_row_post|]. intros mm s ->.
  destruct mm as [[v0 v1]|]; [|by split].
  destruct (ParseInt64 v0) as [e|min]; [by split|].
  destruct (ParseInt64 v1) as [e|max]; [by split|].
  unfold i64_div. msimpl.
  destruct (splitCount (this st) =? 0); [done|].
  destruct (_ =? 0); [by split|].
  loop_post st. intros j a s Ha. by apply append_built_post.
Qed.

Lemma splitBoundariesUintColumn_post (pkMinMax : option Result) (st : State) :
  post (boundaries_ok st) (splitBoundariesUintColumn pkMinMax st).
Proof.
  unfold splitBoundariesUintColumn.
  eapply post_bind; [apply min_max_row_post|]. intros mm s ->.
  destruct mm as [[v0 v1]|]; [|by split].
  destruct (ParseUint64 v0) as [e|min]; [by split|].
  destruct (ParseUint64 v1) as [e|max]; [by split|].
  unfold u64_div, u64_sub. msimpl.
  destruct (U64.wrap (splitCount (this st)) =? 0); [done|].
  destruct (_ =? 0); [by split|].
  loop_post st. intros j a s Ha.
  unfold u64_mul, u64_add. msimpl.
  apply append_built_post. by destruct Ha.
Qed.

Lemma splitBoundariesFloatColumn_post (pkMinMax : option Result) (st : State) :
  post (boundaries_ok st) (splitBoundariesFloatColumn pkMinMax st).
Proof.
  unfold splitBoundariesFloatColumn.
  eapply post_bind; [apply min_max_row_post|]. intros mm s ->.
  destruct mm as [[v0 v1]|]; [|by split].
  destruct (ParseFloat (Value_String v0)) as [e|min]; [by split|].
  destruct (ParseFloat (Value_String v1)) as [e|max]; [by split|].
  msimpl. destruct (f64_is_zero _); [by split|].
  loop_post st. intros j a s Ha. by apply append_built_post.
Qed.

Lemma splitBoundariesStringColumn_post (st : State) :
  post (boundaries_ok st) (splitBoundariesStringColumn st).
Proof.
  unfold splitBoundariesStringColumn, i64_div. msimpl.
  destruct (splitCount (this st) =? 0); [done|].
  loop_post st. intros j a s Ha. by apply append_built_post.
Qed.

Lemma splitBoundaries_post (columnType : Z) (pkMinMax : option Result)
    (st : State) :
  post (boundaries_ok st) (splitBoundaries columnType pkMinMax st).
Proof.
  unfold splitBoundaries.
  destruct (IsSigned columnType); [apply splitBoundariesIntColumn_post|].
  destruct (IsUnsigned columnType); [apply splitBoundariesUintColumn_post|].
  destruct (IsFloat columnType); [apply splitBoundariesFloatColumn_post|].
  destruct (IsBinary columnType); [apply splitBoundariesStringColumn_post|].
  by split.
Qed.

Lemma kept_fields (st st' : State) :
  kept st' = kept st ->
  sql (this st') = sql (this st) /\
  bindVariables (this st') = bindVariables (this st) /\
  splitCount (this st') = splitCount (this st) /\
  sel (this st') = sel (this st) /\
  splitColumn (this st') = splitColumn (this st) /\
  store st' = store st.
Proof.
  destruct st as [[] ? ?], st' as [[] ? ?]. unfold kept. cbn.
  intros [= -> -> -> -> -> -> -> ->]. done.
Qed.

(** *** [split], case by case on what [splitBoundaries] returned *)

(** The one split of the fallback: the query as it came *)
Definition original_split (q : QuerySplitter) : QuerySplit :=
  {| Sql := sql q; BindVariables := bindVariables q; RowCount := 0 |}.

Lemma split_error (columnType : Z) (pkMinMax : option Result)
    (st st1 : State) (boundaries : list Value) (e : error) :
  splitBoundaries columnType pkMinMax st = Ret (boundaries, Some e) st1 ->
  split columnType pkMinMax st = Ret ([], Some e) st1.
Proof. intros H. unfold split, mbind. by rewrite H. Qed.

Lemma split_fallback (columnType : Z) (pkMinMax : option Result)
    (st st1 : State) :
  splitBoundaries columnType pkMinMax st = Ret ([], None) st1 ->
  split columnType pkMinMax st = Ret ([original_split (this st1)], None) st1.
Proof. intros H. unfold split, mbind. by rewrite H. Qed.

Lemma split_ranges (columnType : Z) (pkMinMax : option Result)
    (st st1 : State) (boundaries : list Value) (s : Select) :
  splitBoundaries columnType pkMinMax st = Ret (boundaries, None) st1 ->
  boundaries <> [] ->
  sel (this st1) = Some s ->
  let out := range_splits (splitColumn (this st1)) (rowCount (this st1)) s
               (SelWhere s) (bindVariables (this st1))
               NullValue (boundaries ++ [NullValue]) (store st1) in
  split columnType pkMinMax st =
    Ret (fst out, None) (with_store st1 (snd out)).
Proof.
  intros H Hne Hsel out. unfold split. unfold mbind at 1. rewrite H.
  destruct boundaries as [|b bs]; [done|].
  replace (Z.of_nat (length (b :: bs)) =? 0) with false
    by (symmetry; apply Z.eqb_neq; cbn [length]; lia).
  unfold read_Where. msimpl. rewrite Hsel.
  destruct (split_range_run (SelWhere s) s ((b :: bs) ++ [NullValue])
              NullValue [] st1 (SelWhere s)) as [cur' Hrun].
  { by rewrite set_Where_same. }
  rewrite Hrun. unfold write_Where. msimpl. cbn [sel set_sel].
  change (set_Where (set_Where s cur') (SelWhere s))
    with (set_Where s (SelWhere s)).
  rewrite set_Where_same. cbn [app fst snd]. f_equal.
  destruct st1 as [q h a]. cbn in *. f_equal.
  destruct q. cbn in *. by subst.
Qed.

(** [split] on a validated statement, for whatever [splitBoundaries]
    returned: it returns, and this is what it returns. *)
Lemma split_outcome (columnType : Z) (pkMinMax : option Result)
    (st st1 : State) (b : Boundaries) (s : Select) :
  sel (this st) = Some s ->
  splitBoundaries columnType pkMinMax st = Ret b st1 ->
  sel (this st1) = Some s /\
  split columnType pkMinMax st =
    match snd b with
    | Some e => Ret ([], Some e) st1
    | None =>
        match fst b with
        | [] => Ret ([original_split (this st1)], None) st1
        | _ :: _ =>
            let out := range_splits (splitColumn (this st1)) (rowCount (this st1))
                         s (SelWhere s) (bindVariables (this st1))
                         NullValue (fst b ++ [NullValue]) (store st1) in
            Ret (fst out, None) (with_store st1 (snd out))
        end
    end.
Proof.
  intros Hsel Hb.
  pose proof (post_Ret _ _ _ _ (splitBoundaries_post columnType pkMinMax st) Hb)
    as [_ Hk].
  apply kept_fields in Hk as (_ & _ & _ & Hs & _ & _).
  rewrite Hsel in Hs. split; [done|].
  destruct b as [bs [e|]]; cbn [fst snd].
  - by eapply split_error.
  - destruct bs as [|v bs]; [by apply split_fallback|].
    by apply (split_ranges _ _ _ _ (v :: bs) s).
Qed.

(** ** Theorems *)

(** C3.  On a validated statement (the statement pointer is set), whenever
    the boundary computation returns -- with an error, with no boundary or
    with some -- [split] returns too, and the splitter then holds the
    statement it held before: the same WHERE clause, hence the same
    rendering. *)
Theorem split_restores_where (columnType : Z) (pkMinMax : option Result)
    (st st1 : State) (b : Boundaries) (s : Select) :
  sel (this st) = Some s ->
  splitBoundaries columnType pkMinMax st = Ret b st1 ->
  exists splits st',
    split columnType pkMinMax st = Ret (splits, snd b) st' /\
    sel (this st') = Some s /\
    SelWhere <$> sel (this st') = Some (SelWhere s) /\
    SelectString <$> sel (this st') = Some (SelectString s).
Proof.
  intros Hsel Hb.
  destruct (split_outcome _ _ _ _ _ _ Hsel Hb) as [Hsel1 Hsplit].
  destruct b as [bs [e|]]; cbn [fst snd] in *.
  - exists [], st1. by rewrite Hsel1.
  - destruct bs as [|v bs].
    + eexists _, st1. by rewrite Hsel1.
    + eexists _, _. split; [exact Hsplit|]. cbn. by rewrite Hsel1.
Qed.

(** The column types that consult the min/max result, and those outside
    the four families *)
Definition numeric (columnType : Z) : bool :=
  IsSigned columnType || IsUnsigned columnType || IsFloat columnType.
Definition unsupported (columnType : Z) : bool :=
  negb (IsSigned columnType) && negb (IsUnsigned columnType)
  && negb (IsFloat columnType) && negb (IsBinary columnType).

Lemma splitBoundaries_empty (columnType : Z) (pkMinMax : option Result)
    (st : State) :
  numeric columnType = true /\ no_min_max pkMinMax = true
  \/ unsupported columnType = true ->
  splitBoundaries columnType pkMinMax st = Ret ([], None) st.
Proof.
  unfold numeric, unsupported, splitBoundaries.
  unfold splitBoundariesIntColumn, splitBoundariesUintColumn,
    splitBoundariesFloatColumn.
  intros [[Hn Hmm]|Hu].
  - apply (min_max_row_none _ st) in Hmm.
    destruct (IsSigned columnType); [unfold mbind; by rewrite Hmm|].
    destruct (IsUnsigned columnType); [unfold mbind; by rewrite Hmm|].
    destruct (IsFloat columnType); [unfold mbind; by rewrite Hmm|done].
  - destruct (IsSigned columnType); [done|].
    destruct (IsUnsigned columnType); [done|].
    destruct (IsFloat columnType); [done|].
    by destruct (IsBinary columnType).
Qed.

(** C6, as the code has it: only the signed, unsigned and float variants
    look at the min/max result.  On a signed, unsigned or float column
    whose min/max result is nil, has a number of rows other than one, or
    has a null minimum or maximum, and on a column of a type outside the
    four families with any result, the boundary computation returns the
    empty list and no error, and [split] returns one split: the original
    text, the original bind variables, a zero row count.  Nothing in the
    state changes. *)
Theorem empty_boundaries_single_split (columnType : Z)
    (pkMinMax : option Result) (st : State) :
  numeric columnType = true /\ no_min_max pkMinMax = true
  \/ unsupported columnType = true ->
  splitBoundaries columnType pkMinMax st = Ret ([], None) st /\
  split columnType pkMinMax st =
    Ret ([{| Sql := sql (this st);
             BindVariables := bindVariables (this st);
             RowCount := 0 |}], None) st.
Proof.
  intros H. pose proof (splitBoundaries_empty _ _ st H) as Hb.
  split; [done|]. by apply split_fallback.
Qed.

(** The conversion a column family applies to a minimum or maximum succeeds. *)
Definition parses (columnType : Z) (v : Value) : Prop :=
  if IsSigned columnType then exists z, ParseInt64 v = inr z
  else if IsUnsigned columnType then exists z, ParseUint64 v = inr z
  else if IsFloat columnType then exists f, ParseFloat (Value_String v) = inr f
  else True.

(** A min/max result a numeric column can be computed from: one that the
    guard stops, or one row of at least two values that convert.  Other
    columns take any result. *)
Definition well_formed (columnType : Z) (pkMinMax : option Result) : Prop :=
  numeric columnType = false
  \/ no_min_max pkMinMax = true
  \/ exists r v0 v1 rest,
       pkMinMax = Some r /\ Rows r = [v0 :: v1 :: rest] /\
       IsNull v0 = false /\ IsNull v1 = false /\
       parses columnType v0 /\ parses columnType v1.

Lemma NewQuerySplitter_splitCount (sqlText : string) (bv : mapref)
    (col : string) (n : Z) (schema : TableIdent -> option Table) :
  splitCount (NewQuerySplitter sqlText bv col n schema) = Z.max 1 n.
Proof. cbn. destruct (Z.ltb_spec n 1); lia. Qed.

Lemma splitBoundaries_one (columnType : Z) (pkMinMax : option Result)
    (st : State) :
  splitCount (this st) = 1 -> well_formed columnType pkMinMax ->
  exists st1, splitBoundaries columnType pkMinMax st = Ret ([], None) st1.
Proof.
  intros Hsc Hwf.
  destruct (numeric columnType) eqn:Hnum.
  - destruct Hwf as [?|[Hmm|Hrow]]; [congruence| |].
    { exists st. apply splitBoundaries_empty. by left. }
    destruct Hrow as (r & v0 & v1 & rest & -> & HR & H0 & H1 & P0 & P1).
    unfold numeric in Hnum. unfold parses in P0, P1. unfold splitBoundaries.
    destruct (IsSigned columnType).
    { destruct P0 as [min Hmin], P1 as [max Hmax].
      rewrite (splitBoundariesIntColumn_run r v0 v1 rest min max)
        by (try done; lia).
      rewrite Hsc. destruct (_ =? 0); eauto. }
    destruct (IsUnsigned columnType).
    { destruct P0 as [min Hmin], P1 as [max Hmax].
      rewrite (splitBoundariesUintColumn_run r v0 v1 rest min max)
        by (try done; by rewrite Hsc).
      rewrite Hsc. destruct (_ =? 0); eauto. }
    destruct (IsFloat columnType); [|done].
    destruct P0 as [min Hmin], P1 as [max Hmax].
    rewrite (splitBoundariesFloatColumn_run r v0 v1 rest min max) by done.
    rewrite Hsc. destruct (f64_is_zero _); eauto.
  - unfold numeric in Hnum. unfold splitBoundaries.
    destruct (IsSigned columnType); [done|].
    destruct (IsUnsigned columnType); [done|].
    destruct (IsFloat columnType); [done|].
    destruct (IsBinary columnType); [|by exists st].
    rewrite splitBoundariesStringColumn_run by lia. rewrite Hsc. eauto.
Qed.

(** C9, as the code has it: the numeric variants convert the minimum and
    the maximum before they look at the split count.  A requested split
    count below one is stored as one.  With a split count of one, on a
    column of any type and a min/max result that the column's family can
    read -- one the guard stops, or one row of at least two values that
    convert -- [split] returns exactly one split: the text and the
    bind-variable map of the input, and no row count. *)
Theorem split_count_one :
  (forall (sqlText : string) (bv : mapref) (col : string) (n : Z)
          (schema : TableIdent -> option Table),
     n < 1 -> splitCount (NewQuerySplitter sqlText bv col n schema) = 1) /\
  (forall (columnType : Z) (pkMinMax : option Result) (st : State),
     splitCount (this st) = 1 -> well_formed columnType pkMinMax ->
     exists st',
       split columnType pkMinMax st =
         Ret ([{| Sql := sql (this st);
                  BindVariables := bindVariables (this st);
                  RowCount := 0 |}], None) st' /\
       store st' = store st).
Proof.
  split.
  - intros. rewrite NewQuerySplitter_splitCount. lia.
  - intros columnType pkMinMax st Hsc Hwf.
    destruct (splitBoundaries_one _ _ _ Hsc Hwf) as [st1 Hb].
    pose proof (post_Ret _ _ _ _ (splitBoundaries_post columnType pkMinMax st) Hb)
      as [_ Hk].
    apply kept_fields in Hk as (Hsql & Hbv & _ & _ & _ & Hstore).
    exists st1. rewrite (split_fallback _ _ _ _ Hb).
    unfold original_split. by rewrite Hsql, Hbv.
Qed.

(** *** The bind variables of the splits *)



(** Where split [i] of [n + 1] starts and ends, [n] being the number of
    boundaries: the first split has no lower bound, the last no upper. *)
Lemma bounds_of_split (boundaries : list Value) (i : nat) (a e : Value) :
  (NullValue :: boundaries ++ [NullValue]) !! i = Some a ->
  (boundaries ++ [NullValue]) !! i = Some e ->
  let n := length boundaries in
  (i = 0%nat /\ a = NullValue
   \/ (0 < i)%nat /\ boundaries !! (i - 1)%nat = Some a)
  /\ ((i < n)%nat /\ boundaries !! i = Some e
      \/ i = n /\ e = NullValue).
Proof.
  intros Ha He n.
  assert (i <= n)%nat as Hi.
  { apply lookup_lt_Some in He. rewrite length_app in He. cbn in He. lia. }
  split.
  - destruct i as [|i].
    + left. cbn in Ha. by injection Ha as <-.
    + right. split; [lia|].
      change ((boundaries ++ [NullValue]) !! i = Some a) in Ha.
      replace (S i - 1)%nat with i by lia.
      rewrite lookup_app_l in Ha by (fold n; lia). done.
  - destruct (decide (i = n)) as [Heq|Hne].
    + right. split; [done|].
      rewrite lookup_app_r in He by (fold n; lia).
      replace (i - length boundaries)%nat with 0%nat in He by (fold n; lia).
      cbn in He. by injection He as <-.
    + left. split; [lia|].
      rewrite lookup_app_l in He by (fold n; lia). done.
Qed.


(** *** Signed columns *)

(** The boundaries as numbers: [min + interval * i] for [i] from 1 to
    [splitCount - 1] *)
Definition steps (min interval sc : Z) : list Z :=
  map (fun i => min + interval * i) (seqZ 1 (sc - 1)).

Lemma steps_length (min interval sc : Z) :
  1 <= sc -> Z.of_nat (length (steps min interval sc)) = sc - 1.
Proof. intros H. unfold steps. rewrite length_map, length_seqZ. lia. Qed.

Lemma steps_lookup (min interval sc : Z) (k : nat) (z : Z) :
  steps min interval sc !! k = Some z <->
  z = min + interval * (Z.of_nat k + 1) /\ Z.of_nat k + 1 < sc.
Proof.
  unfold steps. change (map ?f ?l) with (f <$> l).
  rewrite list_lookup_fmap, fmap_Some. split.
  - intros (i & Hi & ->). apply lookup_seqZ in Hi as [-> ?].
    split; [|lia]. by rewrite (Z.add_comm 1).
  - intros [-> Hk]. exists (1 + Z.of_nat k). split.
    + apply lookup_seqZ. lia.
    + by rewrite (Z.add_comm 1).
Qed.

Lemma steps_increasing (min interval sc : Z) (j k : nat) (x y : Z) :
  0 < interval -> (j < k)%nat ->
  steps min interval sc !! j = Some x -> steps min interval sc !! k = Some y ->
  x < y.
Proof.
  intros Hpos Hjk Hx Hy.
  apply steps_lookup in Hx as [-> _]. apply steps_lookup in Hy as [-> _]. nia.
Qed.

Lemma int_boundary_exact (min max sc i : Z) :
  I64.in_range min -> I64.in_range max -> 0 <= max - min <= I64.max_int ->
  0 < sc -> 0 <= i < sc ->
  let interval := (max - min) / sc in
  I64.add min (I64.mul interval i) = min + interval * i /\
  min <= min + interval * i <= max - interval.
Proof.
  intros Hmin Hmax Hd Hsc Hi interval.
  pose proof (interval_steps (max - min) sc i) as Hs.
  fold interval in Hs. specialize (Hs ltac:(lia) Hsc Hi).
  assert (0 <= interval) by (apply Z.div_pos; lia).
  unfold I64.in_range, I64.min_int, I64.max_int in *.
  unfold I64.add, I64.mul.
  rewrite (I64_wrap_small (interval * i))
    by (unfold I64.in_range, I64.min_int, I64.max_int; lia).
  rewrite I64_wrap_small
    by (unfold I64.in_range, I64.min_int, I64.max_int; lia).
  lia.
Qed.

(** C2, as the code has it: the subtraction [max - min] must stay within
    [int64].  On a signed column with a one-row, non-null result whose
    values parse to [min] and [max], with [max - min] at most [2^63 - 1] and
    a positive [interval = (max - min) / splitCount] (truncating), the
    boundaries are the values [min + interval * i] for [i] in
    [1 .. splitCount - 1]: there are [splitCount - 1] of them, strictly
    increasing; the splitter's row-count estimate is [interval]; and
    [split], on a validated statement, returns [splitCount] splits, each
    with that estimate when there are several. *)
Theorem int_boundaries (columnType : Z) (r : Result) (v0 v1 : Value)
    (rest : list Value) (min max : Z) (st : State) (s : Select) :
  IsSigned columnType = true ->
  Rows r = [v0 :: v1 :: rest] -> IsNull v0 = false -> IsNull v1 = false ->
  ParseInt64 v0 = inr min -> ParseInt64 v1 = inr max ->
  I64.in_range min -> I64.in_range max ->
  1 <= splitCount (this st) <= I64.max_int ->
  max - min <= I64.max_int ->
  0 < Z.quot (max - min) (splitCount (this st)) ->
  sel (this st) = Some s ->
  let sc := splitCount (this st) in
  let interval := Z.quot (max - min) sc in
  let nums := steps min interval sc in
  let st1 := with_this st (set_rowCount (this st) interval) in
  splitBoundaries columnType (Some r) st =
    Ret (map (fun z => MakeTrusted Int64 (AppendInt z)) nums, None) st1 /\
  Z.of_nat (length nums) = sc - 1 /\
  (forall i, 1 <= i <= sc - 1 ->
             nums !! Z.to_nat (i - 1) = Some (min + interval * i)) /\
  (forall j k x y, (j < k)%nat -> nums !! j = Some x -> nums !! k = Some y ->
                   x < y) /\
  rowCount (this st1) = interval /\
  exists splits st',
    split columnType (Some r) st = Ret (splits, None) st' /\
    Z.of_nat (length splits) = sc /\
    rowCount (this st') = interval /\
    (2 <= sc -> Forall (fun sp => RowCount sp = interval) splits).
Proof.
  intros Hsigned HR H0 H1 Hmin Hmax Rmin Rmax Hsc Hno Hpos Hsel
         sc interval nums st1.
  assert (0 < max - min) as Hd.
  { destruct (Z.le_gt_cases (max - min) 0) as [Hle|]; [|done].
    assert (Z.quot (max - min) sc <= 0); [|fold sc in Hpos; lia].
    apply Z.opp_nonneg_nonpos. rewrite <- Z.quot_opp_l by (unfold sc; lia).
    apply Z.quot_pos; unfold sc; lia. }
  assert (interval = (max - min) / sc) as Hint
    by (unfold interval; apply Z.quot_div_nonneg; unfold sc; lia).
  assert (0 < interval <= max - min) as Hle.
  { split; [exact Hpos|]. rewrite Hint.
    pose proof (interval_steps (max - min) sc 0). lia. }
  assert (splitBoundaries columnType (Some r) st =
            Ret (map (fun z => MakeTrusted Int64 (AppendInt z)) nums, None) st1)
    as Hb.
  { unfold splitBoundaries. rewrite Hsigned.
    rewrite (splitBoundariesIntColumn_run r v0 v1 rest min max)
      by (try done; lia).
    fold sc. unfold I64.sub.
    rewrite (I64_wrap_small (max - min))
      by (unfold I64.in_range, I64.min_int, I64.max_int in *; lia).
    unfold I64.quot. fold interval. rewrite (I64_wrap_small interval)
      by (unfold I64.in_range, I64.min_int, I64.max_int in *; lia).
    replace (interval =? 0) with false by (symmetry; apply Z.eqb_neq; lia).
    f_equal. f_equal. unfold nums, steps. rewrite map_map.
    apply map_ext_in. intros i Hi.
    apply list_elem_of_In, elem_of_seqZ in Hi. unfold int_boundary.
    destruct (int_boundary_exact min max sc i) as [Heq _];
      try done; try lia.
    rewrite <- Hint in Heq. by rewrite Heq. }
  split; [exact Hb|].
  split; [apply steps_length; unfold sc; lia|].
  split.
  { intros i Hi. apply steps_lookup. split; [|lia].
    by replace (Z.of_nat (Z.to_nat (i - 1)) + 1) with i by lia. }
  split.
  { intros j k x y. apply steps_increasing. unfold interval, sc. lia. }
  split; [done|].
  destruct (split_outcome _ _ _ _ _ _ Hsel Hb) as [Hsel1 Hsplit].
  cbn [fst snd] in Hsplit.
  pose proof (steps_length min interval sc ltac:(unfold sc; lia)) as Hlen.
  fold nums in Hlen.
  destruct (map _ nums) as [|b bs] eqn:Hbs.
  - apply (f_equal length) in Hbs. rewrite length_map in Hbs. cbn in Hbs.
    eexists _, _. split; [exact Hsplit|]. cbn. repeat split; lia.
  - apply (f_equal length) in Hbs. rewrite length_map in Hbs.
    eexists _, _. split; [exact Hsplit|]. cbn [fst snd with_store this].
    split; [|split; [done|]].
    + rewrite range_splits_length, length_app, <- Hbs. cbn. lia.
    + intros _. apply range_splits_RowCount.
Qed.

(** *** Binary columns *)

Lemma byte_at_value (v shift : Z) :
  0 <= v -> 0 <= shift ->
  Z.of_N (N_of_ascii (byte_at v shift)) = (v / 2 ^ shift) mod 256.
Proof.
  intros Hv Hs. unfold byte_at.
  change 255 with (Z.ones 8). rewrite Z.land_ones by lia.
  rewrite Z.shiftr_div_pow2 by lia. change (2 ^ 8) with 256.
  assert (0 <= (v / 2 ^ shift) mod 256 < 256) as Hb
    by (apply Z.mod_pos_bound; lia).
  rewrite N_ascii_embedding; [lia|]. lia.
Qed.

(** [PutUint32] writes the big-endian encoding: reading the four bytes
    back, most significant first, gives the number. *)
Lemma PutUint32_big_endian (v : Z) :
  0 <= v < 2 ^ 32 -> Uint32_of_bytes (PutUint32 v) = Some v.
Proof.
  intros Hv. unfold PutUint32, Uint32_of_bytes.
  rewrite !byte_at_value by lia. f_equal.
  change (2 ^ 0) with 1. change (2 ^ 8) with 256.
  change (2 ^ 16) with 65536. change (2 ^ 24) with 16777216.
  change (2 ^ 32) with 4294967296 in Hv.
  rewrite Z.div_1_r.
  Z.div_mod_to_equations. lia.
Qed.

Lemma quot_bound (a b : Z) : 0 <= a -> b <> 0 -> - a <= Z.quot a b <= a.
Proof.
  intros Ha Hb. destruct (Z.lt_trichotomy b 0) as [Hneg|[?|Hpos]]; [|done|].
  - assert (0 <= Z.quot a (- b) <= a) as H.
    { rewrite Z.quot_div_nonneg by lia. split; [apply Z.div_pos; lia|].
      apply Z.div_le_upper_bound; nia. }
    rewrite Z.quot_opp_r in H by lia. lia.
  - rewrite Z.quot_div_nonneg by lia. split.
    + assert (0 <= a / b) by (apply Z.div_pos; lia). lia.
    + apply Z.div_le_upper_bound; nia.
Qed.

(** C7.  On a binary column the min/max result plays no part: with
    [splitSize = 2^32 / splitCount] (truncating), the boundaries are, for
    [i] in [1 .. splitCount - 1], the four bytes that encode
    [splitSize * i], reduced modulo [2^32], most significant byte first;
    the row-count estimate is [splitSize]. *)
Theorem string_boundaries (columnType : Z) (pkMinMax : option Result)
    (st : State) :
  IsSigned columnType = false -> IsUnsigned columnType = false ->
  IsFloat columnType = false -> IsBinary columnType = true ->
  splitCount (this st) <> 0 ->
  let sc := splitCount (this st) in
  let splitSize := Z.quot (2 ^ 32) sc in
  let encoded i := PutUint32 ((splitSize * i) mod 2 ^ 32) in
  let boundaries :=
    map (fun i => MakeTrusted VarBinary (encoded i)) (seqZ 1 (sc - 1)) in
  let st1 := with_this st (set_rowCount (this st) splitSize) in
  splitBoundaries columnType pkMinMax st = Ret (boundaries, None) st1 /\
  (forall other : option Result,
     splitBoundaries columnType other st
     = splitBoundaries columnType pkMinMax st) /\
  length boundaries = Z.to_nat (sc - 1) /\
  (forall i, 1 <= i <= sc - 1 ->
     boundaries !! Z.to_nat (i - 1) = Some (MakeTrusted VarBinary (encoded i))) /\
  (forall i, Uint32_of_bytes (encoded i) = Some ((splitSize * i) mod 2 ^ 32)) /\
  rowCount (this st1) = splitSize.
Proof.
  intros Hs Hu Hf Hb Hsc sc splitSize encoded boundaries st1.
  assert (forall pk, splitBoundaries columnType pk st = Ret (boundaries, None) st1)
    as Hrun.
  { intros pk. unfold splitBoundaries. rewrite Hs, Hu, Hf, Hb.
    rewrite splitBoundariesStringColumn_run by done. fold sc.
    assert (I64.quot 4294967296 sc = splitSize) as ->.
    { unfold I64.quot, splitSize. change (2 ^ 32) with 4294967296.
      pose proof (quot_bound 4294967296 sc ltac:(lia) Hsc).
      apply I64_wrap_small.
      unfold I64.in_range, I64.min_int, I64.max_int. lia. }
    f_equal. f_equal. apply map_ext. intros i.
    unfold string_boundary, encoded, U32.mul, U32.wrap, U32.modulus.
    by rewrite <- Z.mul_mod by lia. }
  split; [apply Hrun|].
  split; [intros other; by rewrite !Hrun|].
  split; [unfold boundaries; by rewrite length_map, length_seqZ|].
  split; [|split; [|done]].
  - intros i Hi. unfold boundaries. change (map ?f ?l) with (f <$> l).
    rewrite list_lookup_fmap, lookup_seqZ_lt by lia. cbn.
    by replace (1 + Z.of_nat (Z.to_nat (i - 1))) with i by lia.
  - intros i. apply PutUint32_big_endian. apply Z.mod_pos_bound. lia.
Qed.

(** *** Unsigned columns *)

Lemma uint_turn_exact (min max sc i : Z) :
  U64.in_range min -> U64.in_range max -> min <= max ->
  0 < sc -> 0 <= i < sc ->
  let interval := (max - min) / sc in
  Forall (fun ev => wraps_around ev = false) (uint_turn min interval i) /\
  U64.add min (U64.mul interval i) = min + interval * i.
Proof.
  intros Hmin Hmax Hle Hsc Hi interval.
  pose proof (interval_steps (max - min) sc i ltac:(lia) Hsc Hi) as Hs.
  fold interval in Hs.
  assert (0 <= interval) by (apply Z.div_pos; lia).
  unfold U64.in_range, U64.modulus in *.
  assert (U64.mul interval i = interval * i) as Hmul.
  { apply U64_wrap_small. unfold U64.in_range, U64.modulus. lia. }
  split.
  - unfold uint_turn. rewrite Hmul. repeat constructor; cbn.
    + apply Z.leb_gt. unfold U64.modulus. lia.
    + apply Z.leb_gt. unfold U64.modulus. lia.
  - unfold U64.add. rewrite Hmul. apply U64_wrap_small.
    unfold U64.in_range, U64.modulus. lia.
Qed.

(** C8, as the code has it: nothing in the code orders the two values, and
    it divides before it tests the interval.  On an unsigned column with a
    one-row, non-null result whose values parse to [min <= max], and with a
    split count of at least one (as [NewQuerySplitter] stores it), the
    computation returns without dividing by zero; the subtraction
    [max - min], every product [interval * i] and every sum
    [min + interval * i] it performs stay within [uint64]; and the
    boundaries are these sums. *)
Theorem uint_boundaries_safe (columnType : Z) (r : Result) (v0 v1 : Value)
    (rest : list Value) (min max : Z) (st : State) :
  IsSigned columnType = false -> IsUnsigned columnType = true ->
  Rows r = [v0 :: v1 :: rest] -> IsNull v0 = false -> IsNull v1 = false ->
  ParseUint64 v0 = inr min -> ParseUint64 v1 = inr max ->
  U64.in_range min -> U64.in_range max ->
  min <= max ->
  1 <= splitCount (this st) <= I64.max_int ->
  let sc := splitCount (this st) in
  let interval := (max - min) / sc in
  exists st1 evs,
    splitBoundaries columnType (Some r) st =
      Ret (if interval =? 0 then []
           else map (fun i => MakeTrusted Uint64 (AppendUint (min + interval * i)))
                    (seqZ 1 (sc - 1)),
           None) st1 /\
    arith st1 = arith st ++ evs /\
    In (EvSub max min) evs /\
    Forall (fun ev => wraps_around ev = false) evs.
Proof.
  intros Hs Hu HR H0 H1 Hmin Hmax Rmin Rmax Hle Hsc sc interval.
  assert (U64.wrap (splitCount (this st)) = sc) as Hw.
  { apply U64_wrap_small.
    unfold U64.in_range, U64.modulus, I64.max_int in *. lia. }
  assert (U64.sub max min = max - min) as Hd.
  { apply U64_wrap_small. unfold U64.in_range, U64.modulus in *. lia. }
  unfold splitBoundaries. rewrite Hs, Hu.
  rewrite (splitBoundariesUintColumn_run r v0 v1 rest min max)
    by (try done; rewrite Hw; unfold sc; lia).
  rewrite Hw, Hd. unfold U64.quot. fold interval.
  assert (wraps_around (EvSub max min) = false) as Hsub
    by (cbn; apply Z.ltb_ge; lia).
  destruct (interval =? 0).
  - eexists _, [EvSub max min]. split; [done|]. cbn.
    split; [done|]. split; [left; reflexivity|].
    apply Forall_singleton. exact Hsub.
  - assert (map (uint_boundary min interval) (seqZ 1 (sc - 1)) =
            map (fun i => MakeTrusted Uint64 (AppendUint (min + interval * i)))
                (seqZ 1 (sc - 1))) as ->.
    { apply map_ext_in. intros i Hi.
      apply list_elem_of_In, elem_of_seqZ in Hi. unfold uint_boundary.
      destruct (uint_turn_exact min max sc i) as [_ Heq];
        try done; try (unfold sc; lia).
      fold interval in Heq. by rewrite Heq. }
    eexists _, _. split; [reflexivity|].
    split; [reflexivity|]. split; [left; reflexivity|].
    constructor; [done|]. apply Forall_concat, Forall_fmap, Forall_forall.
      intros i Hi. apply elem_of_seqZ in Hi.
      destruct (uint_turn_exact min max sc i) as [Hsafe _];
        try done; try (unfold sc; lia).
Qed.

(** C4.  [getWhereClause] on a map object [l].  With both bounds null it
    returns the original clause and changes nothing.  Otherwise it returns
    a WHERE clause whose expression is the range predicate --
    [col >= :_splitquery_start], [col < :_splitquery_end], or the
    conjunction of the two -- alone when there was no original clause, and
    [(original) AND (range)] when there was one; and it writes each bound
    that is not null into [l] under its fixed name, touching no other map. *)
Theorem getWhereClause_cases (whereClause : option Where) (l : loc)
    (start end_ : Value) (st : State) :
  let c := splitColumn (this st) in
  let ge := ComparisonExpr ">=" (ColName c) (ValArg ":_splitquery_start") in
  let lt := ComparisonExpr "<" (ColName c) (ValArg ":_splitquery_end") in
  let with_original range :=
    Some {| WType := "where";
            WExpr := match whereClause with
                     | Some w => AndExpr (ParenExpr (WExpr w)) (ParenExpr range)
                     | None => range
                     end |} in
  let orig := map_contents (store st) (Some l) in
  exists w st',
    getWhereClause whereClause (Some l) start end_ st = Ret w st' /\
    this st' = this st /\
    (forall l', l' <> l -> store st' !! l' = store st !! l') /\
    match IsNull start, IsNull end_ with
    | true, true => w = whereClause /\ st' = st
    | false, true =>
        w = with_original ge /\
        map_contents (store st') (Some l)
          = <["_splitquery_start" := ToNative start]> orig
    | true, false =>
        w = with_original lt /\
        map_contents (store st') (Some l)
          = <["_splitquery_end" := ToNative end_]> orig
    | false, false =>
        w = with_original (AndExpr ge lt) /\
        map_contents (store st') (Some l)
          = <["_splitquery_end" := ToNative end_]>
              (<["_splitquery_start" := ToNative start]> orig)
    end.
Proof.
  intros c ge lt with_original orig.
  rewrite getWhereClause_eval. fold c.
  destruct (IsNull start), (IsNull end_); eexists _, _;
    (split; [reflexivity|]); (split; [reflexivity|]);
    cbn [with_store store map_contents]; unfold assign;
    (split; [intros l' Hl'; by rewrite ?lookup_insert_ne by done|]).
  - done.
  - split; [done|]. by rewrite lookup_insert_eq.
  - split; [done|]. by rewrite lookup_insert_eq.
  - split; [done|]. by rewrite !lookup_insert_eq.
Qed.

(** *** A zero interval *)

(** On a signed column, a zero interval comes back as no boundary and no
    error, and [split] answers with the original query alone. *)
Lemma int_zero_interval (columnType : Z) (r : Result) (v0 v1 : Value)
    (rest : list Value) (min max : Z) (st : State) :
  IsSigned columnType = true ->
  Rows r = [v0 :: v1 :: rest] -> IsNull v0 = false -> IsNull v1 = false ->
  ParseInt64 v0 = inr min -> ParseInt64 v1 = inr max ->
  splitCount (this st) <> 0 ->
  I64.quot (I64.sub max min) (splitCount (this st)) = 0 ->
  splitBoundaries columnType (Some r) st = Ret ([], None) st /\
  split columnType (Some r) st = Ret ([original_split (this st)], None) st.
Proof.
  intros Hs HR H0 H1 Hmin Hmax Hsc Hz.
  assert (splitBoundaries columnType (Some r) st = Ret ([], None) st) as Hb.
  { unfold splitBoundaries. rewrite Hs.
    rewrite (splitBoundariesIntColumn_run r v0 v1 rest min max) by done.
    by rewrite Hz. }
  split; [done|]. by apply split_fallback.
Qed.

Lemma float_zero_interval (columnType : Z) (r : Result) (v0 v1 : Value)
    (rest : list Value) (min max : float64) (st : State) :
  IsSigned columnType = false -> IsUnsigned columnType = false ->
  IsFloat columnType = true ->
  Rows r = [v0 :: v1 :: rest] -> IsNull v0 = false -> IsNull v1 = false ->
  ParseFloat (Value_String v0) = inr min ->
  ParseFloat (Value_String v1) = inr max ->
  f64_is_zero (f64_div (f64_sub max min) (f64_of_int (splitCount (this st))))
    = true ->
  splitBoundaries columnType (Some r) st = Ret ([], None) st /\
  split columnType (Some r) st = Ret ([original_split (this st)], None) st.
Proof.
  intros Hs Hu Hf HR H0 H1 Hmin Hmax Hz.
  assert (splitBoundaries columnType (Some r) st = Ret ([], None) st) as Hb.
  { unfold splitBoundaries. rewrite Hs, Hu, Hf.
    rewrite (splitBoundariesFloatColumn_run r v0 v1 rest min max) by done.
    by rewrite Hz. }
  split; [done|]. by apply split_fallback.
Qed.

Lemma uint_zero_interval (columnType : Z) (r : Result) (v0 v1 : Value)
    (rest : list Value) (min max : Z) (st : State) :
  IsSigned columnType = false -> IsUnsigned columnType = true ->
  Rows r = [v0 :: v1 :: rest] -> IsNull v0 = false -> IsNull v1 = false ->
  ParseUint64 v0 = inr min -> ParseUint64 v1 = inr max ->
  U64.wrap (splitCount (this st)) <> 0 ->
  U64.quot (U64.sub max min) (U64.wrap (splitCount (this st))) = 0 ->
  let st1 := with_arith st [EvSub max min] in
  splitBoundaries columnType (Some r) st = Ret ([], None) st1 /\
  split columnType (Some r) st = Ret ([original_split (this st)], None) st1.
Proof.
  intros Hs Hu HR H0 H1 Hmin Hmax Hsc Hz st1.
  assert (splitBoundaries columnType (Some r) st = Ret ([], None) st1) as Hb.
  { unfold splitBoundaries. rewrite Hs, Hu.
    rewrite (splitBoundariesUintColumn_run r v0 v1 rest min max) by done.
    by rewrite Hz. }
  split; [done|]. by rewrite (split_fallback _ _ _ _ Hb).
Qed.

(** *** [validateQuery] *)

Lemma is_some_false {A} (o : option A) : is_some o = false <-> o = None.
Proof. destruct o; cbn; split; done. Qed.

Lemma unsupported_shape_false (s : Select) :
  unsupported_shape s = false <->
  Distinct s = "" /\ GroupBy s = None /\ Having s = None /\
  length (From s) = 1%nat /\ OrderBy s = None /\ Limit s = None /\
  Lock s = "".
Proof.
  unfold unsupported_shape.
  rewrite !orb_false_iff, !negb_false_iff, !is_some_false,
    !String.eqb_eq, Z.eqb_eq.
  split; intros H; repeat split; try tauto; lia.
Qed.

(** The requested column is a column of one of the table's indexes. *)
Definition in_some_index (col : ColIdent) (table : Table) : Prop :=
  exists index column,
    In index (Indexes table) /\ In column (IColumns index) /\
    Equal col column = true.

Lemma indexed_true (col : ColIdent) (table : Table) :
  indexed col table = true <-> in_some_index col table.
Proof.
  unfold indexed, in_some_index. rewrite existsb_exists. split.
  - intros (index & Hi & Hc). apply existsb_exists in Hc as (column & ? & ?).
    by exists index, column.
  - intros (index & column & Hi & Hc & He). exists index. split; [done|].
    apply existsb_exists. by exists column.
Qed.

(** What [validateQuery] requires of the query, the statement it parses
    to, its one table expression and the table the schema has for it *)
Definition valid_query (qs : QuerySplitter) (s : Select) (e : SimpleTableExpr)
    (table : Table) : Prop :=
  Parse (sql qs) = inr (SelectStmt s) /\
  Distinct s = "" /\ GroupBy s = None /\ Having s = None /\
  OrderBy s = None /\ Limit s = None /\ Lock s = "" /\
  (exists alias hints, From s = [AliasedTableExpr e alias hints]) /\
  GetTableName e <> "" /\
  se qs (GetTableName e) = Some table /\
  PKColumns table <> [].

(** The splitter after a validation that got as far as the table *)
Definition resolved (qs : QuerySplitter) (s : Select) (e : SimpleTableExpr)
    (col : ColIdent) : QuerySplitter :=
  {| sql := sql qs; bindVariables := bindVariables qs;
     splitCount := splitCount qs; se := se qs; sel := Some s;
     tableName := GetTableName e; splitColumn := col;
     rowCount := rowCount qs |}.

Lemma IsEmpty_true (x : string) : IsEmpty x = true <-> x = "".
Proof. apply String.eqb_eq. Qed.

Lemma IsEmpty_false (x : string) : IsEmpty x = false <-> x <> "".
Proof. apply String.eqb_neq. Qed.

Lemma validateQuery_valid (st : State) (s : Select) (e : SimpleTableExpr)
    (table : Table) :
  valid_query (this st) s e table ->
  let qs := this st in
  validateQuery st =
    if IsEmpty (splitColumn qs) then
      Ret None (with_this st (resolved qs s e (CName (GetPKColumn table 0))))
    else if indexed (splitColumn qs) table then
      Ret None (with_this st (resolved qs s e (splitColumn qs)))
    else
      Ret (Some (Errorf not_indexed_format
                   [ArgColIdent (splitColumn qs); ArgTable table]))
          (with_this st (resolved qs s e (splitColumn qs))).
Proof.
  intros (HP & Hd & Hg & Hh & Ho & Hl & Hk & (alias & hints & HF) & Hn & Ht & Hpk)
         qs.
  unfold validateQuery. msimpl. rewrite HP. cbn [sel set_sel].
  assert (unsupported_shape s = false) as ->.
  { apply unsupported_shape_false. rewrite HF. by repeat split. }
  rewrite HF.
  cbn [this store arith sel set_sel set_tableName tableName se splitColumn].
  apply IsEmpty_false in Hn. rewrite Hn, Ht.
  destruct (PKColumns table) as [|pk pks] eqn:Hpks; [done|].
  replace (Z.of_nat (length (pk :: pks)) =? 0) with false
    by (symmetry; apply Z.eqb_neq; cbn [length]; lia).
  fold qs. destruct (IsEmpty (splitColumn qs)); cbn [negb]; [done|].
  by destruct (indexed (splitColumn qs) table).
Qed.

Lemma validateQuery_success (st st' : State) :
  validateQuery st = Ret None st' ->
  exists s e table,
    valid_query (this st) s e table /\
    (splitColumn (this st) = ""
     \/ in_some_index (splitColumn (this st)) table).
Proof.
  unfold validateQuery. msimpl.
  destruct (Parse (sql (this st))) as [err|[s|text]] eqn:HP; [done| |done].
  cbn [sel set_sel].
  destruct (unsupported_shape s) eqn:Hshape; [done|].
  apply unsupported_shape_false in Hshape
    as (Hd & Hg & Hh & Hlen & Ho & Hl & Hk).
  destruct (From s) as [|[e alias hints|?|?] [|? ?]] eqn:HF; try done.
  cbn [this store arith sel set_sel set_tableName tableName se splitColumn].
  destruct (IsEmpty (GetTableName e)) eqn:Hn; [done|].
  destruct (se (this st) (GetTableName e)) as [table|] eqn:Ht; [|done].
  destruct (Z.of_nat (length (PKColumns table)) =? 0) eqn:Hpk; [done|].
  intros Hret. exists s, e, table. split.
  - repeat split; try done.
    + by exists alias, hints.
    + by apply IsEmpty_false.
    + intros Hnil. rewrite Hnil in Hpk. done.
  - destruct (IsEmpty (splitColumn (this st))) eqn:Hc; cbn [negb] in Hret.
    + left. by apply IsEmpty_true.
    + right. destruct (indexed (splitColumn (this st)) table) eqn:Hi; [|done].
      by apply indexed_true.
Qed.

(** C5.  [validateQuery] returns no error exactly when the text parses to
    a SELECT without DISTINCT, GROUP BY, HAVING, ORDER BY, LIMIT or lock
    clause, whose FROM list is one aliased table expression with a
    non-empty table name, for a table the schema has with at least one
    primary-key column, and the requested split column, if any, is a column
    of some index of the table.  For such a query: without a requested
    column the split column becomes the table's first primary-key column;
    with an indexed one it stays; with one that is in no index the error
    carries the column and the table. *)
Theorem validateQuery_spec (st : State) :
  let qs := this st in
  ((exists st', validateQuery st = Ret None st') <->
   (exists s e table,
      valid_query qs s e table /\
      (splitColumn qs = "" \/ in_some_index (splitColumn qs) table))) /\
  (forall s e table,
     valid_query qs s e table ->
     (splitColumn qs = "" ->
        validateQuery st =
          Ret None
              (with_this st (resolved qs s e (CName (GetPKColumn table 0))))) /\
     (splitColumn qs <> "" -> in_some_index (splitColumn qs) table ->
        validateQuery st =
          Ret None (with_this st (resolved qs s e (splitColumn qs)))) /\
     (splitColumn qs <> "" -> ~ in_some_index (splitColumn qs) table ->
        validateQuery st =
          Ret (Some (Errorf
                 "split column is not indexed or does not exist in table schema, SplitColumn: %v, Table: %v"
                 [ArgColIdent (splitColumn qs); ArgTable table]))
              (with_this st (resolved qs s e (splitColumn qs))))).
Proof.
  intros qs.
  assert (forall s e table,
     valid_query qs s e table ->
     (splitColumn qs = "" ->
        validateQuery st =
          Ret None
              (with_this st (resolved qs s e (CName (GetPKColumn table 0))))) /\
     (splitColumn qs <> "" -> in_some_index (splitColumn qs) table ->
        validateQuery st =
          Ret None (with_this st (resolved qs s e (splitColumn qs)))) /\
     (splitColumn qs <> "" -> ~ in_some_index (splitColumn qs) table ->
        validateQuery st =
          Ret (Some (Errorf not_indexed_format
                 [ArgColIdent (splitColumn qs); ArgTable table]))
              (with_this st (resolved qs s e (splitColumn qs))))) as Hcases.
  { intros s e table Hv. rewrite (validateQuery_valid st s e table Hv).
    fold qs. split; [|split].
    - intros Hc. apply IsEmpty_true in Hc. by rewrite Hc.
    - intros Hc Hi. apply IsEmpty_false in Hc. apply indexed_true in Hi.
      by rewrite Hc, Hi.
    - intros Hc Hi. apply IsEmpty_false in Hc.
      destruct (indexed (splitColumn qs) table) eqn:Hidx.
      + by apply indexed_true in Hidx.
      + by rewrite Hc. }
  split; [|exact Hcases].
  split.
  - intros [st' Hret]. by eapply validateQuery_success.
  - intros (s & e & table & Hv & Hcol).
    destruct (Hcases s e table Hv) as (Hnone & Hidx & _).
    destruct (decide (splitColumn qs = "")) as [Hc|Hc].
    + eexists. by apply Hnone.
    + destruct Hcol as [?|Hi]; [done|]. eexists. by apply Hidx.
Qed.

End Splitter.

Arguments Ret {ext A} a s.
Arguments Panic {ext A} p.

(** ** A small implementation of the imports, to run the splitter

    Nothing above depends on it.  It reads and prints whole decimal
    numbers, computes on IEEE binary64 floats, knows the type tags of the
    integer, float and binary families, renders a statement the way the
    printer does for the clauses used here, and parses three fixed texts. *)
Module Sample.

Inductive native : Type :=
  | Nil
  | NInt (z : Z)
  | NUint (z : Z)
  | NFloat (f : float)
  | NBytes (b : string).

Fixpoint digits (s : string) (acc : Z) : option Z :=
  match s with
  | EmptyString => Some acc
  | String c rest =>
      let n := Z.of_N (N_of_ascii c) in
      if (48 <=? n) && (n <=? 57) then digits rest (10 * acc + (n - 48))
      else None
  end.

Definition unsigned_decimal (s : string) : option Z :=
  match s with
  | EmptyString => None
  | _ => digits s 0
  end.

Definition signed_decimal (s : string) : option Z :=
  match s with
  | String "-" rest => Z.opp <$> unsigned_decimal rest
  | String "+" rest => unsigned_decimal rest
  | _ => unsigned_decimal s
  end.

Definition parse_int (s : string) : error + Z :=
  match signed_decimal s with
  | None => inl (ForeignError "invalid syntax")
  | Some z =>
      if (I64.min_int <=? z) && (z <=? I64.max_int) then inr z
      else inl (ForeignError "value out of range")
  end.

Definition parse_uint (s : string) : error + Z :=
  match unsigned_decimal s with
  | None => inl (ForeignError "invalid syntax")
  | Some z =>
      if z <? U64.modulus then inr z
      else inl (ForeignError "value out of range")
  end.

Definition float_of_int (z : Z) : float :=
  if z <? 0 then PrimFloat.opp (PrimFloat.of_uint63 (Uint63.of_Z (- z)))
  else PrimFloat.of_uint63 (Uint63.of_Z z).

Definition int64_of_float (f : float) : Z :=
  match Prim2SF f with
  | S754_zero _ => 0
  | S754_finite neg m e =>
      let magnitude := if 0 <=? e then Z.pos m * 2 ^ e
                       else Z.pos m / 2 ^ (- e) in
      I64.wrap (if neg then - magnitude else magnitude)
  | _ => I64.min_int
  end.

Definition parse_float (s : string) : error + float :=
  match signed_decimal s with
  | None => inl (ForeignError "invalid syntax")
  | Some z => inr (float_of_int z)
  end.

(** At most twenty digits: enough for any 64-bit number *)
Fixpoint decimal (fuel : nat) (n : Z) (acc : string) : string :=
  match fuel with
  | O => acc
  | S fuel' =>
      let acc' := String (ascii_of_N (Z.to_N (48 + n mod 10))) acc in
      if n / 10 =? 0 then acc' else decimal fuel' (n / 10) acc'
  end.

Definition format_int (z : Z) : string :=
  if z <? 0 then String "-" (decimal 20 (- z) "") else decimal 20 z "".
Definition format_float (f : float) : string := format_int (int64_of_float f).

Definition is_signed (t : Z) : bool := Z.land t 768 =? 256.
Definition is_unsigned (t : Z) : bool := Z.land t 768 =? 768.
Definition is_float (t : Z) : bool := Z.land t 1024 =? 1024.
Definition is_binary (t : Z) : bool := Z.land t 8192 =? 8192.

Definition to_native (v : Value) : native :=
  if typ v =? Null then Nil
  else if is_signed (typ v) then
    match parse_int (val v) with inr z => NInt z | inl _ => Nil end
  else if is_unsigned (typ v) then
    match parse_uint (val v) with inr z => NUint z | inl _ => Nil end
  else if is_float (typ v) then
    match parse_float (val v) with inr f => NFloat f | inl _ => Nil end
  else NBytes (val v).

Fixpoint ExprString (e : Expr) : string :=
  match e with
  | ColName n => n
  | ValArg v => v
  | ComparisonExpr op l r => ExprString l ++ " " ++ op ++ " " ++ ExprString r
  | AndExpr l r => ExprString l ++ " and " ++ ExprString r
  | ParenExpr e => "(" ++ ExprString e ++ ")"
  | OtherExpr text => text
  | NilExpr => ""
  end.

Definition TableExprString (t : TableExpr) : string :=
  match t with
  | AliasedTableExpr (TableName n _) _ _ => n
  | AliasedTableExpr (Subquery text) _ _ => text
  | ParenTableExpr text => text
  | JoinTableExpr text => text
  end.

Definition render (s : Select) : string :=
  "select " ++ String.concat ", " (SelectExprs s)
  ++ " from " ++ String.concat ", " (map TableExprString (From s))
  ++ match SelWhere s with
     | Some w => " " ++ WType w ++ " " ++ ExprString (WExpr w)
     | None => ""
     end.

Definition table_name (e : SimpleTableExpr) : TableIdent :=
  match e with
  | TableName n q => if IsEmpty q then n else ""
  | Subquery _ => ""
  end.

Definition lower (c : ascii) : ascii :=
  let n := N_of_ascii c in
  if (65 <=? n)%N && (n <=? 90)%N then ascii_of_N (n + 32) else c.

Fixpoint to_lower (s : string) : string :=
  match s with
  | EmptyString => EmptyString
  | String c rest => String (lower c) (to_lower rest)
  end.

Definition pk_column (t : Table) (i : Z) : TableColumn :=
  nth (Z.to_nat (nth (Z.to_nat i) (PKColumns t) 0)) (Columns t)
      (mkTableColumn "").

Definition from_t : list TableExpr := [AliasedTableExpr (TableName "t" "") "" ""].

Definition select_t : Select :=
  {| Comments := []; Distinct := ""; SelectExprs := ["*"]; From := from_t;
     SelWhere := Some {| WType := "where"; WExpr := OtherExpr "a = :x" |};
     GroupBy := None; Having := None; OrderBy := None; Limit := None;
     Lock := "" |}.

Definition select_join : Select :=
  {| Comments := []; Distinct := ""; SelectExprs := ["*"];
     From := [JoinTableExpr "t join u on t.id = u.id"];
     SelWhere := None; GroupBy := None; Having := None; OrderBy := None;
     Limit := None; Lock := "" |}.

Definition parse (text : string) : error + Statement :=
  if String.eqb text "select * from t where a = :x" then inr (SelectStmt select_t)
  else if String.eqb text "select * from t join u on t.id = u.id"
  then inr (SelectStmt select_join)
  else if String.eqb text "delete from t" then inr (OtherStmt text)
  else inl (ForeignError "syntax error").

#[export] Instance externals : Externals :=
  {| Native := native;
     ToNative := to_native;
     float64 := float;
     f64_sub := PrimFloat.sub;
     f64_div := PrimFloat.div;
     f64_add := PrimFloat.add;
     f64_mul := PrimFloat.mul;
     f64_of_int := float_of_int;
     f64_to_int64 := int64_of_float;
     f64_is_zero := fun f => PrimFloat.eqb f 0;
     ParseInt := parse_int;
     ParseUint := parse_uint;
     ParseFloat := parse_float;
     AppendInt := format_int;
     AppendUint := format_int;
     AppendFloat := format_float;
     IsSigned := is_signed;
     IsUnsigned := is_unsigned;
     IsFloat := is_float;
     IsBinary := is_binary;
     Parse := parse;
     SelectString := render;
     GetTableName := table_name;
     ToLower := to_lower;
     GetPKColumn := pk_column |}.

(** Table [t]: primary key [id], a second index on [name], and a column
    [note] that no index covers *)
Definition table_t : Table :=
  {| TName := "t";
     Columns := [mkTableColumn "id"; mkTableColumn "name"; mkTableColumn "note"];
     Indexes := [mkIndex "PRIMARY" ["id"]; mkIndex "by_name" ["name"]];
     PKColumns := [0] |}.

Definition schema (name : TableIdent) : option Table :=
  if String.eqb name "t" then Some table_t else None.

(** The caller's bind variables: one map object, binding [x] *)
Definition caller_map : loc := 1%positive.
Definition caller_store : gmap loc (gmap string native) :=
  {[ caller_map := {[ "x" := NInt 7 ]} ]}.

Definition fresh_state (splitColumn : string) (splitCount : Z) : State :=
  {| this := NewQuerySplitter "select * from t where a = :x"
               (Some caller_map) splitColumn splitCount schema;
     store := caller_store;
     arith := [] |}.

(** The same splitter once validated *)
Definition validated (splitCount : Z) : State :=
  {| this := {| sql := "select * from t where a = :x";
                bindVariables := Some caller_map;
                splitCount := splitCount;
                se := schema;
                sel := Some select_t;
                tableName := "t";
                splitColumn := "id";
                rowCount := 0 |};
     store := caller_store;
     arith := [] |}.

Definition min_max (type : Z) (min max : string) : option Result :=
  Some {| Rows := [[MakeTrusted type min; MakeTrusted type max]] |}.

Example validate_t : validateQuery (fresh_state "" 4) = Ret None (validated 4).
Proof. reflexivity. Qed.

End Sample.

(** ** The theorems on the sample: scenarios of the specification *)

Import Sample.

Definition row_0_100 (type : Z) : Result :=
  {| Rows := [[MakeTrusted type "0"; MakeTrusted type "100"]] |}.

Definition boundaries_25_50_75 : list Value :=
  [MakeTrusted Int64 "25"; MakeTrusted Int64 "50"; MakeTrusted Int64 "75"].

Definition after_boundaries (st : State) (estimate : Z) : State :=
  with_this st (set_rowCount (this st) estimate).

Lemma caller_map_valid (n : Z) :
  mapref_valid (store (validated n)) (bindVariables (this (validated n))).
Proof. apply elem_of_dom. eexists. reflexivity. Defined.

(** Discharging the hypotheses of a theorem at a concrete input *)
Ltac side :=
  solve [ reflexivity
        | vm_compute; intuition discriminate
        | apply caller_map_valid ].
Ltac at_input H := repeat (lapply H; [clear H; intros H | side]).

(** Scenario A: [id] from 0 to 100 in 4 splits.  The boundaries are 25, 50
    and 75, the estimate is 25, and there are 4 splits. *)
Lemma int_boundaries_witness :
  splitBoundaries Int64 (Some (row_0_100 Int64)) (validated 4)
    = Ret (boundaries_25_50_75, None) (after_boundaries (validated 4) 25) /\
  exists splits st',
    split Int64 (Some (row_0_100 Int64)) (validated 4) = Ret (splits, None) st' /\
    Z.of_nat (length splits) = 4 /\
    rowCount (this st') = 25 /\
    Forall (fun sp => RowCount sp = 25) splits.
Proof.
  pose proof (int_boundaries Int64 (row_0_100 Int64)
                (MakeTrusted Int64 "0") (MakeTrusted Int64 "100") [] 0 100
                (validated 4) select_t) as H.
  at_input H.
  destruct H as (Hb & _ & _ & _ & _ & splits & st' & Hsplit & Hlen & Hrc & Hall).
  split; [etrans; [exact Hb|reflexivity]|].
  exists splits, st'. split; [exact Hsplit|]. split; [exact Hlen|].
  split; [exact Hrc|]. apply Hall. vm_compute. discriminate.
Defined.

(** The four statements of scenario A, as rendered *)
Example scenario_A_text :
  match split Int64 (Some (row_0_100 Int64)) (validated 4) with
  | Ret (splits, _) _ => map Sql splits
  | Panic _ => []
  end =
  ["select * from t where (a = :x) and (id < :_splitquery_end)";
   "select * from t where (a = :x) and (id >= :_splitquery_start and id < :_splitquery_end)";
   "select * from t where (a = :x) and (id >= :_splitquery_start and id < :_splitquery_end)";
   "select * from t where (a = :x) and (id >= :_splitquery_start)"].
Proof. vm_compute. reflexivity. Qed.

(** ... and their bind variables *)
Example scenario_A_bind_variables :
  match split Int64 (Some (row_0_100 Int64)) (validated 4) with
  | Ret (splits, _) st' =>
      map (fun sp => map_to_list (map_contents (store st') (BindVariables sp)))
          splits
  | Panic _ => []
  end =
  [[("_splitquery_end", NInt 25); ("x", NInt 7)];
   [("_splitquery_start", NInt 25); ("_splitquery_end", NInt 50); ("x", NInt 7)];
   [("_splitquery_start", NInt 50); ("_splitquery_end", NInt 75); ("x", NInt 7)];
   [("_splitquery_start", NInt 75); ("x", NInt 7)]].
Proof. vm_compute. reflexivity. Qed.

Definition wrapped_boundaries : list Value :=
  [MakeTrusted Int64 "-7111686018427387904";
   MakeTrusted Int64 "-9223372036854775808";
   MakeTrusted Int64 "7111686018427387904"].

(** C2 does not hold as stated.  With [min = -5 * 10^18],
    [max = 5 * 10^18] and 4 splits, [(max - min) / 4] is positive, but
    [max - min] does not fit [int64]: the code's interval is negative, the
    boundaries it builds are not [min + interval * i] and they go down
    before they go up.  And with [max] below [min] the subtraction can wrap
    to a positive interval, after which the boundaries wrap. *)
Lemma int_boundaries_overflow :
  (0 < Z.quot (5000000000000000000 - -5000000000000000000) 4 /\
   splitBoundaries Int64
     (min_max Int64 "-5000000000000000000" "5000000000000000000") (validated 4)
   = Ret (wrapped_boundaries, None)
         (after_boundaries (validated 4) (-2111686018427387904)) /\
   wrapped_boundaries
   <> map (fun z => MakeTrusted Int64 (format_int z))
          (steps (-5000000000000000000)
                 (Z.quot (5000000000000000000 - -5000000000000000000) 4) 4) /\
   map ParseInt64 wrapped_boundaries
   = [inr (-7111686018427387904); inr (-9223372036854775808);
      inr 7111686018427387904] /\
   -2111686018427387904
   <> Z.quot (5000000000000000000 - -5000000000000000000) 4) /\
  (0 < I64.quot (I64.sub (-4611686018427387904) 4611686018427387905) 3 /\
   splitBoundaries Int64
     (min_max Int64 "4611686018427387905" "-4611686018427387904") (validated 3)
   = Ret ([MakeTrusted Int64 "7686143364045646507";
           MakeTrusted Int64 "-7686143364045646507"], None)
         (after_boundaries (validated 3) 3074457345618258602)).
Proof.
  split; (split; [vm_compute; reflexivity|]).
  - split; [reflexivity|]. split; [vm_compute; discriminate|].
    split; [reflexivity|vm_compute; discriminate].
  - reflexivity.
Qed.

(** C1: the code does not report a zero interval.  Scenario C ([id] from 5
    to 6 in 10 splits) returns no boundary and no error, on a signed and on
    an unsigned column, and so does a float column whose minimum and
    maximum coincide; [split] then answers with the original query as the
    only split. *)
Theorem zero_interval_not_reported :
  (splitBoundaries Int64 (min_max Int64 "5" "6") (validated 10)
     = Ret ([], None) (validated 10) /\
   split Int64 (min_max Int64 "5" "6") (validated 10)
     = Ret ([{| Sql := "select * from t where a = :x";
                BindVariables := Some caller_map;
                RowCount := 0 |}], None) (validated 10)) /\
  (exists st1,
     splitBoundaries Uint64 (min_max Uint64 "5" "6") (validated 10)
       = Ret ([], None) st1 /\
     split Uint64 (min_max Uint64 "5" "6") (validated 10)
       = Ret ([{| Sql := "select * from t where a = :x";
                  BindVariables := Some caller_map;
                  RowCount := 0 |}], None) st1) /\
  (splitBoundaries Float64 (min_max Float64 "5" "5") (validated 10)
     = Ret ([], None) (validated 10) /\
   split Float64 (min_max Float64 "5" "5") (validated 10)
     = Ret ([{| Sql := "select * from t where a = :x";
                BindVariables := Some caller_map;
                RowCount := 0 |}], None) (validated 10)).
Proof.
  split; [|split].
  - apply (@int_zero_interval externals Int64 _ (MakeTrusted Int64 "5")
             (MakeTrusted Int64 "6") [] 5 6 (validated 10));
      try reflexivity. vm_compute. discriminate.
  - eexists.
    apply (@uint_zero_interval externals Uint64 _ (MakeTrusted Uint64 "5")
             (MakeTrusted Uint64 "6") [] 5 6 (validated 10));
      try reflexivity. vm_compute. discriminate.
  - apply (@float_zero_interval externals Float64 _ (MakeTrusted Float64 "5")
             (MakeTrusted Float64 "5") [] (float_of_int 5) (float_of_int 5)
             (validated 10));
      reflexivity.
Qed.

(** C8 does not hold as stated.  Nothing orders the two values: with
    [min = 5] and [max = 3] the subtraction [3 - 5] wraps around, and the
    one boundary is built from the wrapped difference. *)
Lemma uint_subtraction_underflows :
  splitBoundaries Uint64 (min_max Uint64 "5" "3") (validated 2)
  = Ret ([MakeTrusted Uint64 "9223372036854775812"], None)
        (with_arith (after_boundaries (validated 2) 9223372036854775807)
           [EvSub 3 5; EvMul 9223372036854775807 1;
            EvAdd 5 9223372036854775807]) /\
  wraps_around (EvSub 3 5) = true /\
  U64.sub 3 5 = 18446744073709551614.
Proof. split; [reflexivity|]. split; reflexivity. Qed.

(** The test of the interval comes after the division: a splitter whose
    split count is zero, which [NewQuerySplitter] never builds, divides by
    zero. *)
Example uint_zero_split_count :
  splitBoundaries Uint64 (Some (row_0_100 Uint64)) (validated 0)
  = Panic DivideByZero.
Proof. reflexivity. Qed.

(** [id] from 0 to 100 in 4 splits on an unsigned column: 25, 50, 75, and
    no operation leaves [uint64]. *)
Lemma uint_boundaries_safe_witness :
  exists st1,
    splitBoundaries Uint64 (Some (row_0_100 Uint64)) (validated 4)
    = Ret ([MakeTrusted Uint64 "25"; MakeTrusted Uint64 "50";
            MakeTrusted Uint64 "75"], None) st1 /\
    Forall (fun ev => wraps_around ev = false) (arith st1).
Proof.
  pose proof (uint_boundaries_safe Uint64 (row_0_100 Uint64)
                (MakeTrusted Uint64 "0") (MakeTrusted Uint64 "100") [] 0 100
                (validated 4)) as H.
  at_input H.
  destruct H as (st1 & evs & Hb & Ha & _ & Hsafe).
  exists st1. split; [etrans; [exact Hb|reflexivity]|].
  rewrite Ha. exact Hsafe.
Defined.

(** After scenario A the splitter holds the statement it was given. *)
Lemma split_restores_where_witness :
  exists splits st',
    split Int64 (Some (row_0_100 Int64)) (validated 4) = Ret (splits, None) st' /\
    sel (this st') = Some select_t /\
    SelectString <$> sel (this st') = Some "select * from t where a = :x".
Proof.
  pose proof (split_restores_where Int64 (Some (row_0_100 Int64)) (validated 4)
                (after_boundaries (validated 4) 25)
                (boundaries_25_50_75, None) select_t) as H.
  at_input H.
  destruct H as (splits & st' & Hsplit & Hsel & _ & Htext).
  exists splits, st'. split; [exact Hsplit|]. split; [exact Hsel|exact Htext].
Defined.

(** No min/max result at all: the original query is the only split. *)
Lemma empty_boundaries_single_split_witness :
  splitBoundaries Int64 None (validated 4) = Ret ([], None) (validated 4) /\
  split Int64 None (validated 4)
  = Ret ([{| Sql := "select * from t where a = :x";
             BindVariables := Some caller_map;
             RowCount := 0 |}], None) (validated 4).
Proof.
  apply (empty_boundaries_single_split Int64 None (validated 4)).
  left. split; reflexivity.
Defined.

(** A binary column in 4 splits: the boundaries encode 2^30, 2^31 and
    3 * 2^30. *)
Lemma string_boundaries_witness :
  splitBoundaries VarBinary None (validated 4)
  = Ret (map (fun i => MakeTrusted VarBinary
                         (PutUint32 ((1073741824 * i) mod 2 ^ 32)))
             [1; 2; 3], None)
        (after_boundaries (validated 4) 1073741824) /\
  Uint32_of_bytes (PutUint32 ((1073741824 * 3) mod 2 ^ 32)) = Some 3221225472.
Proof.
  pose proof (string_boundaries VarBinary None (validated 4)) as H.
  at_input H.
  destruct H as (Hb & _ & _ & _ & Hdecode & _).
  split; [etrans; [exact Hb|reflexivity]|].
  etrans; [exact (Hdecode 3)|reflexivity].
Defined.

(** C6 does not hold as stated.  A binary column never looks at the
    min/max result: with no result at all, and with a result of no row, it
    returns its three boundaries for 4 splits, and [split] returns four
    range queries, not the original one. *)
Lemma binary_column_ignores_result :
  (no_min_max None = true /\
   splitBoundaries VarBinary None (validated 4)
   = Ret (map (fun i => MakeTrusted VarBinary (PutUint32 (1073741824 * i)))
              [1; 2; 3], None)
         (after_boundaries (validated 4) 1073741824) /\
   match split VarBinary None (validated 4) with
   | Ret (splits, _) _ => map Sql splits
   | Panic _ => []
   end =
   ["select * from t where (a = :x) and (id < :_splitquery_end)";
    "select * from t where (a = :x) and (id >= :_splitquery_start and id < :_splitquery_end)";
    "select * from t where (a = :x) and (id >= :_splitquery_start and id < :_splitquery_end)";
    "select * from t where (a = :x) and (id >= :_splitquery_start)"]) /\
  (no_min_max (Some {| Rows := [] |}) = true /\
   splitBoundaries VarBinary (Some {| Rows := [] |}) (validated 4)
   = Ret (map (fun i => MakeTrusted VarBinary (PutUint32 (1073741824 * i)))
              [1; 2; 3], None)
         (after_boundaries (validated 4) 1073741824)).
Proof.
  split.
  - split; [reflexivity|]. split; [reflexivity|]. vm_compute. reflexivity.
  - split; reflexivity.
Qed.

Lemma well_formed_0_100 : well_formed Int64 (Some (row_0_100 Int64)).
Proof.
  right. right.
  exists (row_0_100 Int64), (MakeTrusted Int64 "0"), (MakeTrusted Int64 "100"), [].
  split; [reflexivity|]. split; [reflexivity|].
  split; [reflexivity|]. split; [reflexivity|].
  split; [exists 0; reflexivity|exists 100; reflexivity].
Defined.

(** Scenario B *)
Lemma split_count_one_witness :
  splitCount (this (fresh_state "" 0)) = 1 /\
  exists st',
    split Int64 (Some (row_0_100 Int64)) (validated 1)
    = Ret ([{| Sql := "select * from t where a = :x";
               BindVariables := Some caller_map;
               RowCount := 0 |}], None) st' /\
    store st' = caller_store.
Proof.
  destruct (@split_count_one externals) as [Hclamp Hone].
  split.
  - exact (Hclamp "select * from t where a = :x" (Some caller_map) "" 0 schema
             eq_refl).
  - exact (Hone Int64 (Some (row_0_100 Int64)) (validated 1) eq_refl
             well_formed_0_100).
Defined.

(** C9 does not hold as stated.  With a split count of one, a minimum
    that does not convert makes [split] return the conversion's error and
    no split, and a row with one value makes it panic. *)
Lemma split_count_one_malformed :
  splitCount (this (validated 1)) = 1 /\
  split Int64 (min_max Int64 "abc" "100") (validated 1)
  = Ret ([], Some (ForeignError "invalid syntax")) (validated 1) /\
  split Int64 (Some {| Rows := [[MakeTrusted Int64 "0"]] |}) (validated 1)
  = Panic IndexOutOfRange.
Proof. split; [reflexivity|]. split; reflexivity. Qed.


Lemma valid_query_t (col : string) :
  valid_query (this (fresh_state col 4)) select_t (TableName "t" "") table_t.
Proof.
  split; [reflexivity|]. do 6 (split; [reflexivity|]).
  split; [exists "", ""; reflexivity|].
  split; [vm_compute; discriminate|].
  split; [reflexivity|discriminate].
Defined.

(** A query on [t] without a requested column takes [id], the first
    primary-key column; scenario E: [note] is a column of [t] that no index
    covers, and the error carries the column and the table. *)
Lemma validateQuery_spec_witness :
  validateQuery (fresh_state "" 4) = Ret None (validated 4) /\
  validateQuery (fresh_state "note" 4)
  = Ret (Some (Errorf
           "split column is not indexed or does not exist in table schema, SplitColumn: %v, Table: %v"
           [ArgColIdent "note"; ArgTable table_t]))
        (with_this (fresh_state "note" 4)
           (resolved (this (fresh_state "note" 4)) select_t (TableName "t" "")
                     "note")).
Proof.
  split.
  - destruct (validateQuery_spec (fresh_state "" 4)) as [_ Hcases].
    destruct (Hcases select_t (TableName "t" "") table_t (valid_query_t ""))
      as (Hdefault & _ & _).
    etrans; [exact (Hdefault eq_refl)|reflexivity].
  - destruct (validateQuery_spec (fresh_state "note" 4)) as [_ Hcases].
    destruct (Hcases select_t (TableName "t" "") table_t (valid_query_t "note"))
      as (_ & _ & Hnot).
    apply Hnot; [discriminate|].
    intros Hidx. apply indexed_true in Hidx. vm_compute in Hidx. discriminate.
Defined.

(** Scenario D: a join is refused before any table is looked up. *)
Example scenario_D :
  validateQuery
    {| this := NewQuerySplitter "select * from t join u on t.id = u.id"
                 None "" 4 schema;
       store := ∅; arith := [] |}
  = Ret (Some (Errorf "unsupported query" []))
        {| this := set_sel (NewQuerySplitter
                              "select * from t join u on t.id = u.id"
                              None "" 4 schema) (Some select_join);
           store := ∅; arith := [] |}.
Proof. reflexivity. Qed.


(** ** Further properties of the splitter *)

Section More.
Context {ext : Externals}.

Ltac run :=
  unfold mbind, mret, panic, get_this, put_this, get_store, put_store, record,
         with_this, with_store in *;
  cbn [this store arith] in *.

(** *** The guard, in full *)

(** What the guard of the numeric variants decides: stop with no boundary,
    go on with the two values, or index past the end of a short row *)
Inductive Guard : Type :=
  | Stop
  | Go (v0 v1 : Value)
  | Short.

Definition guard (pkMinMax : option Result) : Guard :=
  match pkMinMax with
  | None => Stop
  | Some r =>
      match Rows r with
      | [row] =>
          match row with
          | [] => Short
          | v0 :: rest =>
              if IsNull v0 then Stop
              else match rest with
                   | [] => Short
                   | v1 :: _ => if IsNull v1 then Stop else Go v0 v1
                   end
          end
      | _ => Stop
      end
  end.

Lemma min_max_row_guard (pkMinMax : option Result) (st : State) :
  min_max_row pkMinMax st =
    match guard pkMinMax with
    | Stop => Ret None st
    | Go v0 v1 => Ret (Some (v0, v1)) st
    | Short => Panic IndexOutOfRange
    end.
Proof.
  destruct pkMinMax as [[rows]|]; [|done].
  unfold guard, min_max_row. cbn [Rows].
  destruct rows as [|row [|row' rows]]; [done| |].
  2:{ cbn [length].
      destruct (Z.eqb_spec (Z.of_nat (S (S (length rows)))) 1); [lia|done]. }
  destruct row as [|v0 rest]; [done|].
  cbn. run. destruct (IsNull v0); [done|].
  destruct rest as [|v1 rest]; [done|]. cbn. by destruct (IsNull v1).
Qed.

(** *** What [splitBoundaries] computes, as a function of the split count,
    the column type and the min/max result *)

Inductive Computed : Type :=
  | Panics (p : PanicKind)
  | Fails (e : error)
  | Empty (evs : list ArithEvent)
  | Found (boundaries : list Value) (estimate : Z) (evs : list ArithEvent).

Definition computed_int (sc : Z) (pkMinMax : option Result) : Computed :=
  match guard pkMinMax with
  | Stop => Empty []
  | Short => Panics IndexOutOfRange
  | Go v0 v1 =>
      match ParseInt64 v0 with
      | inl e => Fails e
      | inr min =>
          match ParseInt64 v1 with
          | inl e => Fails e
          | inr max =>
              if sc =? 0 then Panics DivideByZero
              else
                let interval := I64.quot (I64.sub max min) sc in
                if interval =? 0 then Empty []
                else Found (map (int_boundary min interval) (seqZ 1 (sc - 1)))
                           interval []
          end
      end
  end.

Definition computed_uint (sc : Z) (pkMinMax : option Result) : Computed :=
  match guard pkMinMax with
  | Stop => Empty []
  | Short => Panics IndexOutOfRange
  | Go v0 v1 =>
      match ParseUint64 v0 with
      | inl e => Fails e
      | inr min =>
          match ParseUint64 v1 with
          | inl e => Fails e
          | inr max =>
              let n := U64.wrap sc in
              if n =? 0 then Panics DivideByZero
              else
                let interval := U64.quot (U64.sub max min) n in
                if interval =? 0 then Empty [EvSub max min]
                else Found (map (uint_boundary min interval) (seqZ 1 (n - 1)))
                           (I64.wrap interval)
                           (EvSub max min
                              :: concat (map (uint_turn min interval)
                                             (seqZ 1 (n - 1))))
          end
      end
  end.

Definition computed_float (sc : Z) (pkMinMax : option Result) : Computed :=
  match guard pkMinMax with
  | Stop => Empty []
  | Short => Panics IndexOutOfRange
  | Go v0 v1 =>
      match ParseFloat (Value_String v0) with
      | inl e => Fails e
      | inr min =>
          match ParseFloat (Value_String v1) with
          | inl e => Fails e
          | inr max =>
              let interval := f64_div (f64_sub max min) (f64_of_int sc) in
              if f64_is_zero interval then Empty []
              else Found (map (float_boundary min interval) (seqZ 1 (sc - 1)))
                         (f64_to_int64 interval) []
          end
      end
  end.

Definition computed_string (sc : Z) : Computed :=
  if sc =? 0 then Panics DivideByZero
  else
    let splitSize := I64.quot 4294967296 sc in
    Found (map (string_boundary splitSize) (seqZ 1 (sc - 1))) splitSize [].

Definition computed (sc columnType : Z) (pkMinMax : option Result) : Computed :=
  if IsSigned columnType then computed_int sc pkMinMax
  else if IsUnsigned columnType then computed_uint sc pkMinMax
  else if IsFloat columnType then computed_float sc pkMinMax
  else if IsBinary columnType then computed_string sc
  else Empty [].

(** The outcome that goes with a computation: the estimate is stored when
    boundaries were looked for and the interval allowed it, and the
    operations are recorded. *)
Definition outcome_of (st : State) (c : Computed) : Outcome Boundaries :=
  match c with
  | Panics p => Panic p
  | Fails e => Ret ([], Some e) st
  | Empty evs => Ret ([], None) (with_arith st evs)
  | Found boundaries estimate evs =>
      Ret (boundaries, None)
          (with_arith (with_this st (set_rowCount (this st) estimate)) evs)
  end.

Lemma with_arith_nil (st : State) : with_arith st [] = st.
Proof. destruct st. unfold with_arith. cbn. by rewrite app_nil_r. Qed.

Lemma splitBoundariesIntColumn_computed (pkMinMax : option Result) (st : State) :
  splitBoundariesIntColumn pkMinMax st
  = outcome_of st (computed_int (splitCount (this st)) pkMinMax).
Proof.
  unfold splitBoundariesIntColumn, computed_int. unfold mbind at 1.
  rewrite min_max_row_guard.
  destruct (guard pkMinMax) as [|v0 v1|]; [by rewrite <- (with_arith_nil st) at 1| |done].
  destruct (ParseInt64 v0) as [e|min]; [done|].
  destruct (ParseInt64 v1) as [e|max]; [done|].
  unfold i64_div. run.
  destruct (splitCount (this st) =? 0); [done|].
  destruct (_ =? 0); [cbn; by rewrite with_arith_nil|].
  rewrite (for_range_appends (int_boundary min _)) by done.
  cbn. by rewrite with_arith_nil.
Qed.

Lemma splitBoundariesUintColumn_computed (pkMinMax : option Result) (st : State) :
  splitBoundariesUintColumn pkMinMax st
  = outcome_of st (computed_uint (splitCount (this st)) pkMinMax).
Proof.
  unfold splitBoundariesUintColumn, computed_uint. unfold mbind at 1.
  rewrite min_max_row_guard.
  destruct (guard pkMinMax) as [|v0 v1|]; [by rewrite <- (with_arith_nil st) at 1| |done].
  destruct (ParseUint64 v0) as [e|min]; [done|].
  destruct (ParseUint64 v1) as [e|max]; [done|].
  unfold u64_div, u64_sub. run.
  destruct (U64.wrap (splitCount (this st)) =? 0); [done|].
  set (interval := U64.quot (U64.sub max min) (U64.wrap (splitCount (this st)))).
  destruct (interval =? 0); [done|].
  unfold for_range.
  rewrite (for_loop_appends (uint_boundary min interval)
             (fun j s => with_arith s (uint_turn min interval j))).
  - rewrite foldl_record, seqZ_of_to_nat. cbn.
    unfold with_arith. cbn. by rewrite <- app_assoc.
  - intros j acc' st'. unfold u64_mul, u64_add. run.
    unfold with_arith, uint_turn. cbn. by rewrite <- app_assoc.
Qed.

Lemma splitBoundariesFloatColumn_computed (pkMinMax : option Result)
    (st : State) :
  splitBoundariesFloatColumn pkMinMax st
  = outcome_of st (computed_float (splitCount (this st)) pkMinMax).
Proof.
  unfold splitBoundariesFloatColumn, computed_float. unfold mbind at 1.
  rewrite min_max_row_guard.
  destruct (guard pkMinMax) as [|v0 v1|]; [by rewrite <- (with_arith_nil st) at 1| |done].
  destruct (ParseFloat (Value_String v0)) as [e|min]; [done|].
  destruct (ParseFloat (Value_String v1)) as [e|max]; [done|].
  run. destruct (f64_is_zero _); [cbn; by rewrite with_arith_nil|].
  rewrite (for_range_appends (float_boundary min _)) by done.
  cbn. by rewrite with_arith_nil.
Qed.

Lemma splitBoundariesStringColumn_computed (st : State) :
  splitBoundariesStringColumn st
  = outcome_of st (computed_string (splitCount (this st))).
Proof.
  unfold computed_string.
  destruct (Z.eqb_spec (splitCount (this st)) 0) as [Hz|Hnz].
  - unfold splitBoundariesStringColumn, i64_div. run. by rewrite Hz.
  - rewrite splitBoundariesStringColumn_run by done. cbn.
    by rewrite with_arith_nil.
Qed.

Lemma splitBoundaries_computed (columnType : Z) (pkMinMax : option Result)
    (st : State) :
  splitBoundaries columnType pkMinMax st
  = outcome_of st (computed (splitCount (this st)) columnType pkMinMax).
Proof.
  unfold splitBoundaries, computed.
  destruct (IsSigned columnType); [apply splitBoundariesIntColumn_computed|].
  destruct (IsUnsigned columnType); [apply splitBoundariesUintColumn_computed|].
  destruct (IsFloat columnType); [apply splitBoundariesFloatColumn_computed|].
  destruct (IsBinary columnType); [apply splitBoundariesStringColumn_computed|].
  cbn. by rewrite with_arith_nil.
Qed.

(** *** Panics and errors of the boundary computation *)

Lemma guard_short (pkMinMax : option Result) :
  guard pkMinMax = Short <->
  exists r row,
    pkMinMax = Some r /\ Rows r = [row] /\
    (row = [] \/ exists v0, row = [v0] /\ IsNull v0 = false).
Proof.
  unfold guard. split.
  - destruct pkMinMax as [r|]; [|done].
    destruct (Rows r) as [|row [|? ?]] eqn:HR; try done.
    destruct row as [|v0 [|v1 rest]].
    + intros _. exists r, []. by eauto.
    + destruct (IsNull v0) eqn:H0; [done|]. intros _.
      exists r, [v0]. split; [done|]. split; [done|]. right. by exists v0.
    + destruct (IsNull v0); [done|]. by destruct (IsNull v1).
  - intros (r & row & -> & -> & [->|(v0 & -> & ->)]); done.
Qed.

Lemma guard_go (pkMinMax : option Result) (v0 v1 : Value) :
  guard pkMinMax = Go v0 v1 <->
  exists r rest,
    pkMinMax = Some r /\ Rows r = [v0 :: v1 :: rest] /\
    IsNull v0 = false /\ IsNull v1 = false.
Proof.
  unfold guard. split.
  - destruct pkMinMax as [r|]; [|done].
    destruct (Rows r) as [|row [|? ?]] eqn:HR; try done.
    destruct row as [|w0 [|w1 rest]]; [done| |].
    + by destruct (IsNull w0).
    + destruct (IsNull w0) eqn:H0; [done|].
      destruct (IsNull w1) eqn:H1; [done|].
      intros [= <- <-]. by exists r, rest.
  - intros (r & rest & -> & -> & -> & ->). done.
Qed.

(** A row too short to index: a single row that is empty, or that holds
    one value and that value is not null *)
Definition short_row (pkMinMax : option Result) : Prop :=
  exists r row,
    pkMinMax = Some r /\ Rows r = [row] /\
    (row = [] \/ exists v0, row = [v0] /\ IsNull v0 = false).

Lemma splitBoundaries_panic_iff (columnType : Z)
    (pkMinMax : option Result) (st : State) (p : PanicKind) :
  1 <= splitCount (this st) <= I64.max_int ->
  (splitBoundaries columnType pkMinMax st = Panic p <->
   p = IndexOutOfRange /\ numeric columnType = true /\ short_row pkMinMax).
Proof.
  intros Hsc. unfold short_row.
  rewrite <- guard_short, splitBoundaries_computed.
  assert ((splitCount (this st) =? 0) = false) as Hnz by (apply Z.eqb_neq; lia).
  assert ((U64.wrap (splitCount (this st)) =? 0) = false) as Hwz.
  { apply Z.eqb_neq. rewrite U64_wrap_small; [lia|].
    unfold U64.in_range, U64.modulus, I64.max_int in *. lia. }
  unfold computed, numeric, computed_int, computed_uint, computed_float,
    computed_string.
  rewrite Hnz. cbn zeta. rewrite Hwz.
  destruct (IsSigned columnType); cbn [orb].
  { destruct (guard pkMinMax) as [|v0 v1|]; cbn.
    - split; [done|]. intros (_ & _ & [=]).
    - destruct (ParseInt64 v0); [cbn; split; [done|intros (_ & _ & [=])]|].
      destruct (ParseInt64 v1); [cbn; split; [done|intros (_ & _ & [=])]|].
      destruct (I64.quot _ _ =? 0); cbn; (split; [done|intros (_ & _ & [=])]).
    - split; [by intros [= <-]|by intros (-> & _)]. }
  destruct (IsUnsigned columnType); cbn [orb].
  { destruct (guard pkMinMax) as [|v0 v1|]; cbn.
    - split; [done|]. intros (_ & _ & [=]).
    - destruct (ParseUint64 v0); [cbn; split; [done|intros (_ & _ & [=])]|].
      destruct (ParseUint64 v1); [cbn; split; [done|intros (_ & _ & [=])]|].
      destruct (U64.quot _ _ =? 0); cbn; (split; [done|intros (_ & _ & [=])]).
    - split; [by intros [= <-]|by intros (-> & _)]. }
  destruct (IsFloat columnType); cbn [orb].
  { destruct (guard pkMinMax) as [|v0 v1|]; cbn.
    - split; [done|]. intros (_ & _ & [=]).
    - destruct (ParseFloat _); [cbn; split; [done|intros (_ & _ & [=])]|].
      destruct (ParseFloat _); [cbn; split; [done|intros (_ & _ & [=])]|].
      destruct (f64_is_zero _); cbn; (split; [done|intros (_ & _ & [=])]).
    - split; [by intros [= <-]|by intros (-> & _)]. }
  destruct (IsBinary columnType); cbn; (split; [done|intros (_ & [=] & _)]).
Qed.

Lemma split_error_iff (columnType : Z) (pkMinMax : option Result)
    (st st' : State) (splits : list QuerySplit) (e : error) :
  split columnType pkMinMax st = Ret (splits, Some e) st' <->
  splits = [] /\
  exists boundaries,
    splitBoundaries columnType pkMinMax st = Ret (boundaries, Some e) st'.
Proof.
  split.
  - unfold split. unfold mbind at 1.
    destruct (splitBoundaries columnType pkMinMax st) as [[bs [e'|]] s1|];
      [| |done].
    + intros [= <- <- <-]. split; [done|]. by exists bs.
    + unfold read_Where, write_Where. run.
      repeat case_match; try done.
  - intros (-> & bs & Hb). by eapply split_error.
Qed.

(** With a split count of at least one, the only panic in the code of the
    boundary computation (the conversions it calls being taken to return)
    is the index past the end of a short row, on the three families that
    read the row: a single row that is empty, or that holds one value and
    that value is not null.  In particular it never divides by zero. *)
Theorem splitBoundaries_panics_on_short_row (columnType : Z)
    (pkMinMax : option Result) (st : State) (p : PanicKind) :
  1 <= splitCount (this st) <= I64.max_int ->
  (splitBoundaries columnType pkMinMax st = Panic p <->
   p = IndexOutOfRange /\ numeric columnType = true /\
   exists r row,
     pkMinMax = Some r /\ Rows r = [row] /\
     (row = [] \/ exists v0, row = [v0] /\ IsNull v0 = false)).
Proof. apply splitBoundaries_panic_iff. Qed.

(** The conversion of a value fails with [e], for the family of the column *)
Definition conversion_fails (columnType : Z) (v : Value) (e : error) : Prop :=
  if IsSigned columnType then ParseInt64 v = inl e
  else if IsUnsigned columnType then ParseUint64 v = inl e
  else if IsFloat columnType then ParseFloat (Value_String v) = inl e
  else False.

(** [split] returns an error exactly when the min/max result passes the
    guard and the minimum, or else the maximum, does not convert: the error
    is the conversion's own, no split is returned, and the state is what it
    was -- no estimate stored, no statement touched, no map made. *)
Theorem split_error_is_conversion_error (columnType : Z)
    (pkMinMax : option Result) (st st' : State) (splits : list QuerySplit)
    (e : error) :
  split columnType pkMinMax st = Ret (splits, Some e) st' <->
  splits = [] /\ st' = st /\
  exists r v0 v1 rest,
    pkMinMax = Some r /\ Rows r = [v0 :: v1 :: rest] /\
    IsNull v0 = false /\ IsNull v1 = false /\
    (conversion_fails columnType v0 e
     \/ parses columnType v0 /\ conversion_fails columnType v1 e).
Proof.
  assert (split columnType pkMinMax st = Ret (splits, Some e) st' <->
          splits = [] /\ st' = st /\
          computed (splitCount (this st)) columnType pkMinMax = Fails e) as ->.
  { rewrite split_error_iff, splitBoundaries_computed.
    destruct (computed _ _ _) as [p|e'|evs|bs est evs]; cbn.
    - split; [intros [_ [? [=]]]|intros (_ & _ & [=])].
    - split; [intros [-> [? [= <- <- <-]]]; done|].
      intros (-> & -> & [= ->]). split; [done|]. by exists [].
    - split; [intros [_ [? [=]]]|intros (_ & _ & [=])].
    - split; [intros [_ [? [=]]]|intros (_ & _ & [=])]. }
  assert (computed (splitCount (this st)) columnType pkMinMax = Fails e <->
          exists v0 v1, guard pkMinMax = Go v0 v1 /\
            (conversion_fails columnType v0 e
             \/ parses columnType v0 /\ conversion_fails columnType v1 e)) as ->.
  { unfold computed, conversion_fails, parses, computed_int, computed_uint,
      computed_float, computed_string.
    destruct (IsSigned columnType).
    { destruct (guard pkMinMax) as [|v0 v1|].
      - split; [done|intros (? & ? & [=] & _)].
      - destruct (ParseInt64 v0) as [e0|min] eqn:H0.
        + split; [intros [= ->]; exists v0, v1; by eauto|].
          intros (w0 & w1 & [= <- <-] & [Hc|[[z Hz] _]]); congruence.
        + destruct (ParseInt64 v1) as [e1|max] eqn:H1.
          * split; [intros [= ->]; exists v0, v1; split; [done|]; right; by eauto|].
            intros (w0 & w1 & [= <- <-] & [Hc|[_ Hc]]); congruence.
          * split.
            -- destruct (_ =? 0); [done|]. cbn zeta. by destruct (_ =? 0).
            -- intros (w0 & w1 & [= <- <-] & [Hc|[_ Hc]]); congruence.
      - split; [done|intros (? & ? & [=] & _)]. }
    destruct (IsUnsigned columnType).
    { destruct (guard pkMinMax) as [|v0 v1|].
      - split; [done|intros (? & ? & [=] & _)].
      - destruct (ParseUint64 v0) as [e0|min] eqn:H0.
        + split; [intros [= ->]; exists v0, v1; by eauto|].
          intros (w0 & w1 & [= <- <-] & [Hc|[[z Hz] _]]); congruence.
        + destruct (ParseUint64 v1) as [e1|max] eqn:H1.
          * split; [intros [= ->]; exists v0, v1; split; [done|]; right; by eauto|].
            intros (w0 & w1 & [= <- <-] & [Hc|[_ Hc]]); congruence.
          * split.
            -- cbn zeta. destruct (_ =? 0); [done|]. by destruct (_ =? 0).
            -- intros (w0 & w1 & [= <- <-] & [Hc|[_ Hc]]); congruence.
      - split; [done|intros (? & ? & [=] & _)]. }
    destruct (IsFloat columnType).
    { destruct (guard pkMinMax) as [|v0 v1|].
      - split; [done|intros (? & ? & [=] & _)].
      - destruct (ParseFloat (Value_String v0)) as [e0|min] eqn:H0.
        + split; [intros [= ->]; exists v0, v1; by eauto|].
          intros (w0 & w1 & [= <- <-] & [Hc|[[z Hz] _]]); congruence.
        + destruct (ParseFloat (Value_String v1)) as [e1|max] eqn:H1.
          * split; [intros [= ->]; exists v0, v1; split; [done|]; right; by eauto|].
            intros (w0 & w1 & [= <- <-] & [Hc|[_ Hc]]); congruence.
          * split.
            -- cbn zeta. by destruct (f64_is_zero _).
            -- intros (w0 & w1 & [= <- <-] & [Hc|[_ Hc]]); congruence.
      - split; [done|intros (? & ? & [=] & _)]. }
    split.
    - destruct (IsBinary columnType); [|done]. by destruct (_ =? 0).
    - by intros (? & ? & _ & [?|[_ ?]]). }
  split.
  - intros (-> & -> & v0 & v1 & Hg & Hc). split; [done|]. split; [done|].
    apply guard_go in Hg as (r & rest & ? & ? & ? & ?).
    by exists r, v0, v1, rest.
  - intros (-> & -> & r & v0 & v1 & rest & ? & ? & ? & ? & Hc).
    split; [done|]. split; [done|]. exists v0, v1. split; [|done].
    apply guard_go. by exists r, rest.
Qed.

(** *** [split] and validation *)

Lemma split_panic_iff (columnType : Z) (pkMinMax : option Result)
    (st : State) (s : Select) (p : PanicKind) :
  sel (this st) = Some s ->
  (split columnType pkMinMax st = Panic p <->
   splitBoundaries columnType pkMinMax st = Panic p).
Proof.
  intros Hsel.
  destruct (splitBoundaries columnType pkMinMax st) as [b st1|q] eqn:Hb.
  - destruct (split_outcome _ _ _ _ _ _ Hsel Hb) as [_ ->].
    destruct (snd b); [split; intros [=]|].
    destruct (fst b); cbn zeta; split; intros [=].
  - unfold split, mbind. rewrite Hb. split; by intros [= ->].
Qed.

(** [split] before a statement is set -- the splitter as
    [NewQuerySplitter] makes it, or after [validateQuery] met a text that is
    no SELECT: when boundaries come back it dereferences the nil statement
    and panics; when none comes back it answers with the original query. *)
Theorem split_needs_statement (columnType : Z) (pkMinMax : option Result)
    (st st1 : State) (boundaries : list Value) :
  sel (this st) = None ->
  splitBoundaries columnType pkMinMax st = Ret (boundaries, None) st1 ->
  split columnType pkMinMax st =
    match boundaries with
    | [] => Ret ([{| Sql := sql (this st);
                     BindVariables := bindVariables (this st);
                     RowCount := 0 |}], None) st1
    | _ :: _ => Panic NilPointer
    end.
Proof.
  intros Hsel Hb.
  pose proof (post_Ret _ _ _ _ (splitBoundaries_post columnType pkMinMax st) Hb)
    as [_ Hk].
  apply kept_fields in Hk as (Hsql & Hbv & _ & Hs & _ & _).
  destruct boundaries as [|b bs].
  - rewrite (split_fallback _ _ _ _ Hb). unfold original_split.
    by rewrite Hsql, Hbv.
  - unfold split. unfold mbind at 1. rewrite Hb.
    replace (Z.of_nat (length (b :: bs)) =? 0) with false
      by (symmetry; apply Z.eqb_neq; cbn [length]; lia).
    unfold read_Where. run. by rewrite Hs, Hsel.
Qed.

(** *** [validateQuery], in full *)

Definition unsupported_error : error := Errorf "unsupported query" [].

(** The error and the splitter [validateQuery] leaves *)
Definition validation (qs : QuerySplitter) : option error * QuerySplitter :=
  match Parse (sql qs) with
  | inl err => (Some err, qs)
  | inr (OtherStmt _) =>
      (Some (Errorf "not a select statement" []), set_sel qs None)
  | inr (SelectStmt s) =>
      let qs1 := set_sel qs (Some s) in
      if unsupported_shape s then (Some unsupported_error, qs1)
      else
        match From s with
        | AliasedTableExpr e _ _ :: _ =>
            let qs2 := set_tableName qs1 (GetTableName e) in
            if IsEmpty (GetTableName e)
            then (Some (Errorf "not a simple table expression" []), qs2)
            else
              match se qs (GetTableName e) with
              | None => (Some (Errorf "can't find table in schema" []), qs2)
              | Some table =>
                  if Z.of_nat (length (PKColumns table)) =? 0
                  then (Some (Errorf "no primary keys" []), qs2)
                  else if negb (IsEmpty (splitColumn qs))
                  then
                    if indexed (splitColumn qs) table then (None, qs2)
                    else (Some (Errorf not_indexed_format
                                  [ArgColIdent (splitColumn qs);
                                   ArgTable table]), qs2)
                  else
                    (None, set_splitColumn qs2 (CName (GetPKColumn table 0)))
              end
        | _ => (Some unsupported_error, qs1)
        end
  end.

Lemma validateQuery_validation (st : State) :
  validateQuery st
  = Ret (fst (validation (this st))) (with_this st (snd (validation (this st)))).
Proof.
  unfold validateQuery, validation. run.
  destruct (Parse (sql (this st))) as [err|[s|text]]; cbn [fst snd sel set_sel].
  - by destruct st.
  - destruct (unsupported_shape s) eqn:Hshape; [done|].
    apply unsupported_shape_false in Hshape as (_ & _ & _ & Hlen & _).
    destruct (From s) as [|[e alias hints|?|?] rest]; [done| |done|done].
    cbn [this store arith sel set_sel set_tableName tableName se splitColumn].
    destruct (IsEmpty (GetTableName e)); [done|].
    destruct (se (this st) (GetTableName e)) as [table|]; [|done].
    destruct (_ =? 0); [done|].
    destruct (IsEmpty (splitColumn (this st))); cbn [negb]; [done|].
    by destruct (indexed _ _).
  - done.
Qed.

(** With a schema engine at hand and a parser and a schema that return,
    [validateQuery] returns: the one index it takes, [From[0]], is behind
    the test of the length.  It leaves the text, the bind variables, the
    split count, the schema, the estimate and the store as they were; and
    when it fails it leaves the requested split column as it was. *)
Theorem validateQuery_returns (st : State) :
  exists (r : option error) (qs' : QuerySplitter),
    validateQuery st = Ret r (with_this st qs') /\
    sql qs' = sql (this st) /\
    bindVariables qs' = bindVariables (this st) /\
    splitCount qs' = splitCount (this st) /\
    se qs' = se (this st) /\
    rowCount qs' = rowCount (this st) /\
    (r <> None -> splitColumn qs' = splitColumn (this st)).
Proof.
  eexists _, _. split; [apply validateQuery_validation|].
  unfold validation.
  destruct (Parse (sql (this st))) as [err|[s|text]]; [done| |done].
  cbn zeta. destruct (unsupported_shape s); [done|].
  destruct (From s) as [|[e alias hints|?|?] rest]; [done| |done|done].
  destruct (IsEmpty (GetTableName e)); [done|].
  destruct (se (this st) (GetTableName e)) as [table|]; [|done].
  destruct (_ =? 0); [done|].
  destruct (negb _); [by destruct (indexed _ _)|].
  repeat split; done.
Qed.

(** Validating again a splitter that was validated with a requested column
    succeeds again and changes nothing. *)
Theorem validateQuery_twice (st st' : State) :
  splitColumn (this st) <> "" ->
  validateQuery st = Ret None st' ->
  validateQuery st' = Ret None st'.
Proof.
  intros Hcol Hret.
  rewrite validateQuery_validation in Hret.
  rewrite validateQuery_validation.
  apply IsEmpty_false in Hcol.
  injection Hret as Hnone <-.
  revert Hnone. unfold validation.
  destruct (Parse (sql (this st))) as [err|[s|text]] eqn:HP; [done| |done].
  cbn zeta. destruct (unsupported_shape s) eqn:Hshape; [done|].
  destruct (From s) as [|[e alias hints|?|?] rest] eqn:HF; [done| |done|done].
  destruct (IsEmpty (GetTableName e)) eqn:Hn; [done|].
  destruct (se (this st) (GetTableName e)) as [table|] eqn:Ht; [|done].
  destruct (_ =? 0) eqn:Hpk; [done|].
  rewrite Hcol. cbn [negb].
  destruct (indexed _ _) eqn:Hidx; [|done]. intros _.
  cbn [with_this this snd fst sql set_tableName set_sel].
  rewrite HP, Hshape, HF.
  cbn [se splitColumn set_tableName set_sel]. rewrite Hn, Ht, Hpk, Hcol.
  cbn [negb]. rewrite Hidx. cbn. by destruct st as [[] ? ?].
Qed.

Lemma validation_success (qs : QuerySplitter) :
  fst (validation qs) = None ->
  exists s, sel (snd (validation qs)) = Some s /\
            splitCount (snd (validation qs)) = splitCount qs.
Proof.
  unfold validation.
  destruct (Parse (sql qs)) as [err|[s|text]]; [done| |done].
  cbn zeta. destruct (unsupported_shape s); [done|].
  destruct (From s) as [|[e alias hints|?|?] rest]; [done| |done|done].
  destruct (IsEmpty (GetTableName e)); [done|].
  destruct (se qs (GetTableName e)) as [table|]; [|done].
  destruct (_ =? 0); [done|].
  destruct (negb _); [destruct (indexed _ _); [|done]|]; intros _; by exists s.
Qed.

(** From [NewQuerySplitter] through a successful [validateQuery] to
    [split]: the only panic left in the splitter's code (the library calls
    being taken to return) is the index past the end of a short row of the
    min/max result, on a signed, unsigned or float column.  No division by
    zero, no nil statement, no write to a nil map. *)
Theorem validated_split_panics_on_short_row (sqlText : string) (bv : mapref)
    (col : string) (n : Z) (schema : TableIdent -> option Table)
    (h : gmap loc (gmap string Native))
    (st1 : State) (columnType : Z) (pkMinMax : option Result) (p : PanicKind) :
  n <= I64.max_int ->
  validateQuery {| this := NewQuerySplitter sqlText bv col n schema;
                   store := h; arith := [] |} = Ret None st1 ->
  (split columnType pkMinMax st1 = Panic p <->
   p = IndexOutOfRange /\ numeric columnType = true /\
   exists r row,
     pkMinMax = Some r /\ Rows r = [row] /\
     (row = [] \/ exists v0, row = [v0] /\ IsNull v0 = false)).
Proof.
  intros Hn Hv. rewrite validateQuery_validation in Hv.
  injection Hv as Hnone <-.
  destruct (validation_success _ Hnone) as (s & Hsel & Hsc).
  rewrite (split_panic_iff _ _ _ s) by done.
  apply splitBoundaries_panic_iff. cbn [with_this this].
  rewrite Hsc, NewQuerySplitter_splitCount. unfold I64.max_int in *. lia.
Qed.

(** *** Unsigned and float columns *)

Lemma steps_elem (min interval sc z : Z) :
  z ∈ steps min interval sc <->
  exists i, 1 <= i <= sc - 1 /\ z = min + interval * i.
Proof.
  unfold steps. change (map ?f ?l) with (f <$> l).
  rewrite list_elem_of_fmap. split.
  - intros (i & -> & Hi). apply elem_of_seqZ in Hi. exists i. split; [lia|done].
  - intros (i & Hi & ->). exists i. split; [done|]. apply elem_of_seqZ. lia.
Qed.

(** The number of splits [split] returns for [n] boundaries *)
Lemma split_length (columnType : Z) (pkMinMax : option Result)
    (st st1 : State) (boundaries : list Value) (s : Select) :
  sel (this st) = Some s ->
  splitBoundaries columnType pkMinMax st = Ret (boundaries, None) st1 ->
  exists splits st',
    split columnType pkMinMax st = Ret (splits, None) st' /\
    length splits = S (length boundaries) /\
    this st' = this st1 /\
    (boundaries <> [] ->
     Forall (fun sp => RowCount sp = rowCount (this st1)) splits).
Proof.
  intros Hsel Hb.
  destruct (split_outcome _ _ _ _ _ _ Hsel Hb) as [_ Hsplit].
  cbn [fst snd] in Hsplit. destruct boundaries as [|b bs].
  - eexists _, _. split; [exact Hsplit|]. by repeat split.
  - eexists _, _. split; [exact Hsplit|]. cbn [fst snd with_store this].
    split; [|split; [done|]].
    + rewrite range_splits_length, length_app. cbn. lia.
    + intros _. apply range_splits_RowCount.
Qed.

(** On an unsigned column with a one-row, non-null result whose values
    parse to [min <= max], a split count of at least one and a positive
    [interval = (max - min) / splitCount]: the boundaries are the values
    [min + interval * i], [i] from 1 to [splitCount - 1]; each lies above
    [min] and at least [interval] below [max]; they increase strictly; and
    [split] returns [splitCount] splits.  With two splits or more the
    estimate is [interval]. *)
Theorem uint_boundaries_ordered (columnType : Z) (r : Result) (v0 v1 : Value)
    (rest : list Value) (min max : Z) (st : State) (s : Select) :
  IsSigned columnType = false -> IsUnsigned columnType = true ->
  Rows r = [v0 :: v1 :: rest] -> IsNull v0 = false -> IsNull v1 = false ->
  ParseUint64 v0 = inr min -> ParseUint64 v1 = inr max ->
  U64.in_range min -> U64.in_range max -> min <= max ->
  1 <= splitCount (this st) <= I64.max_int ->
  0 < (max - min) / splitCount (this st) ->
  sel (this st) = Some s ->
  let sc := splitCount (this st) in
  let interval := (max - min) / sc in
  let nums := steps min interval sc in
  exists st1,
    splitBoundaries columnType (Some r) st =
      Ret (map (fun z => MakeTrusted Uint64 (AppendUint z)) nums, None) st1 /\
    Z.of_nat (length nums) = sc - 1 /\
    (forall z, z ∈ nums -> min < z <= max - interval) /\
    (forall j k x y, (j < k)%nat -> nums !! j = Some x -> nums !! k = Some y ->
                     x < y) /\
    (2 <= sc -> rowCount (this st1) = interval) /\
    exists splits st',
      split columnType (Some r) st = Ret (splits, None) st' /\
      Z.of_nat (length splits) = sc.
Proof.
  intros Hs Hu HR H0 H1 Hmin Hmax Rmin Rmax Hle Hsc Hpos Hsel sc interval nums.
  assert (U64.wrap (splitCount (this st)) = sc) as Hw.
  { apply U64_wrap_small.
    unfold U64.in_range, U64.modulus, I64.max_int in *. lia. }
  assert (U64.sub max min = max - min) as Hd.
  { apply U64_wrap_small. unfold U64.in_range, U64.modulus in *. lia. }
  assert (interval <= max - min) as Hint.
  { pose proof (interval_steps (max - min) sc 0). unfold interval. lia. }
  assert (Z.of_nat (length nums) = sc - 1) as Hlen
    by (apply steps_length; unfold sc; lia).
  assert (splitBoundaries columnType (Some r) st =
            Ret (map (fun z => MakeTrusted Uint64 (AppendUint z)) nums, None)
                (with_arith
                   (with_this st (set_rowCount (this st) (I64.wrap interval)))
                   (EvSub max min
                      :: concat (map (uint_turn min interval)
                                     (seqZ 1 (sc - 1)))))) as Hb.
  { unfold splitBoundaries. rewrite Hs, Hu.
    rewrite (splitBoundariesUintColumn_run r v0 v1 rest min max)
      by (try done; rewrite Hw; unfold sc; lia).
    rewrite Hw, Hd. unfold U64.quot. fold interval.
    replace (interval =? 0) with false
      by (symmetry; apply Z.eqb_neq; unfold interval, sc; lia).
    f_equal. f_equal. unfold nums, steps. rewrite map_map.
    apply map_ext_in. intros i Hi.
    apply list_elem_of_In, elem_of_seqZ in Hi. unfold uint_boundary.
    pose proof (uint_turn_exact min max sc i Rmin Rmax Hle
                  ltac:(unfold sc; lia) ltac:(lia)) as [_ Heq].
    fold interval in Heq. by rewrite Heq. }
  eexists. split; [exact Hb|]. split; [done|].
  split.
  { intros z Hz. apply steps_elem in Hz as (i & Hi & ->).
    pose proof (interval_steps (max - min) sc i ltac:(lia)
                  ltac:(unfold sc; lia) ltac:(lia)) as Hst.
    fold interval in Hst. assert (0 < interval) by exact Hpos. nia. }
  split.
  { intros j k x y. apply steps_increasing. exact Hpos. }
  split.
  { intros H2. cbn. apply I64_wrap_small.
    assert (sc * interval <= max - min)
      by (apply Z.mul_div_le; unfold sc; lia).
    assert (0 < interval) by exact Hpos.
    unfold I64.in_range, I64.min_int, I64.max_int, U64.in_range, U64.modulus in *.
    nia. }
  destruct (split_length _ _ _ _ _ _ Hsel Hb) as (splits & st' & Hsp & Hl & _).
  exists splits, st'. split; [done|]. rewrite Hl, length_map. lia.
Qed.

(** On a float column with a one-row, non-null result whose values parse,
    whatever the two floats are: unless the interval
    [(max - min) / splitCount] compares equal to zero, the boundaries are
    [min + interval * i] for [i] from 1 to [splitCount - 1], computed in
    floating point, the estimate is the interval converted to [int64], and
    [split] returns as many splits as the split count, or one when the
    split count is below one. *)
Theorem float_boundaries (columnType : Z) (r : Result) (v0 v1 : Value)
    (rest : list Value) (min max : float64) (st : State) (s : Select) :
  IsSigned columnType = false -> IsUnsigned columnType = false ->
  IsFloat columnType = true ->
  Rows r = [v0 :: v1 :: rest] -> IsNull v0 = false -> IsNull v1 = false ->
  ParseFloat (Value_String v0) = inr min ->
  ParseFloat (Value_String v1) = inr max ->
  f64_is_zero (f64_div (f64_sub max min) (f64_of_int (splitCount (this st))))
    = false ->
  sel (this st) = Some s ->
  let sc := splitCount (this st) in
  let interval := f64_div (f64_sub max min) (f64_of_int sc) in
  let boundary i :=
    MakeTrusted Float64
      (AppendFloat (f64_add min (f64_mul interval (f64_of_int i)))) in
  splitBoundaries columnType (Some r) st =
    Ret (map boundary (seqZ 1 (sc - 1)), None)
        (with_this st (set_rowCount (this st) (f64_to_int64 interval))) /\
  exists splits st',
    split columnType (Some r) st = Ret (splits, None) st' /\
    Z.of_nat (length splits) = Z.max 1 sc /\
    rowCount (this st') = f64_to_int64 interval.
Proof.
  intros Hs Hu Hf HR H0 H1 Hmin Hmax Hnz Hsel sc interval boundary.
  assert (splitBoundaries columnType (Some r) st =
            Ret (map boundary (seqZ 1 (sc - 1)), None)
                (with_this st (set_rowCount (this st) (f64_to_int64 interval))))
    as Hb.
  { unfold splitBoundaries. rewrite Hs, Hu, Hf.
    rewrite (splitBoundariesFloatColumn_run r v0 v1 rest min max) by done.
    fold sc. fold interval. unfold interval, sc. by rewrite Hnz. }
  split; [exact Hb|].
  destruct (split_length _ _ _ _ _ _ Hsel Hb) as (splits & st' & Hsp & Hl & Ht & _).
  exists splits, st'. split; [done|].
  split; [rewrite Hl, length_map, length_seqZ; lia|by rewrite Ht].
Qed.

(** *** Binary columns *)

(** On a binary column with a split count from 1 to [2^32], where
    [splitSize = 2^32 / splitCount]: boundary [i] is the four bytes that
    read back, most significant first, as [splitSize * i] itself -- the
    product stays below [2^32], so the 32-bit multiplication does not wrap
    and the boundaries increase strictly; the estimate is [splitSize];
    and [split] returns [splitCount] splits. *)
Theorem string_boundaries_ordered (columnType : Z) (pkMinMax : option Result)
    (st : State) (s : Select) :
  IsSigned columnType = false -> IsUnsigned columnType = false ->
  IsFloat columnType = false -> IsBinary columnType = true ->
  1 <= splitCount (this st) <= 2 ^ 32 ->
  sel (this st) = Some s ->
  let sc := splitCount (this st) in
  let splitSize := 2 ^ 32 / sc in
  exists boundaries st1,
    splitBoundaries columnType pkMinMax st = Ret (boundaries, None) st1 /\
    Z.of_nat (length boundaries) = sc - 1 /\
    (forall i, 1 <= i <= sc - 1 ->
       exists v, boundaries !! Z.to_nat (i - 1) = Some v /\
                 typ v = VarBinary /\
                 Uint32_of_bytes (val v) = Some (splitSize * i)) /\
    0 < splitSize /\ splitSize * (sc - 1) < 2 ^ 32 /\
    rowCount (this st1) = splitSize /\
    exists splits st',
      split columnType pkMinMax st = Ret (splits, None) st' /\
      Z.of_nat (length splits) = sc.
Proof.
  intros Hs Hu Hf Hb Hsc Hsel sc splitSize.
  change (2 ^ 32) with 4294967296 in *.
  assert (0 < splitSize) as Hpos.
  { unfold splitSize. apply Z.div_str_pos. unfold sc. lia. }
  assert (sc * splitSize <= 4294967296) as Hmul
    by (apply Z.mul_div_le; unfold sc; lia).
  assert (I64.quot 4294967296 sc = splitSize) as Hq.
  { unfold I64.quot. rewrite Z.quot_div_nonneg by (unfold sc; lia).
    fold splitSize. apply I64_wrap_small.
    unfold I64.in_range, I64.min_int, I64.max_int. nia. }
  assert (splitBoundaries columnType pkMinMax st =
            Ret (map (string_boundary splitSize) (seqZ 1 (sc - 1)), None)
                (with_this st (set_rowCount (this st) splitSize))) as Hrun.
  { unfold splitBoundaries. rewrite Hs, Hu, Hf, Hb.
    rewrite splitBoundariesStringColumn_run by lia. fold sc. by rewrite Hq. }
  eexists _, _. split; [exact Hrun|].
  split; [rewrite length_map, length_seqZ; unfold sc; lia|].
  split.
  { intros i Hi. eexists. split.
    - change (map ?f ?l) with (f <$> l).
      rewrite list_lookup_fmap, lookup_seqZ_lt by lia. cbn. reflexivity.
    - split; [done|]. unfold string_boundary. cbn [val].
      replace (1 + Z.of_nat (Z.to_nat (i - 1))) with i by lia.
      assert (U32.mul (U32.wrap splitSize) (U32.wrap i) = splitSize * i) as ->.
      { unfold U32.mul, U32.wrap, U32.modulus.
        change (2 ^ 32) with 4294967296.
        rewrite <- Z.mul_mod by lia. apply Z.mod_small. nia. }
      apply PutUint32_big_endian. change (2 ^ 32) with 4294967296. nia. }
  split; [done|]. split; [nia|]. split; [done|].
  destruct (split_length _ _ _ _ _ _ Hsel Hrun) as (splits & st' & Hsp & Hl & _).
  exists splits, st'. split; [done|].
  rewrite Hl, length_map, length_seqZ. unfold sc. lia.
Qed.

(** On a binary column with a split count above [2^32] the split size is
    zero: every boundary is the same four zero bytes and the estimate is
    zero. *)
Theorem string_boundaries_degenerate (columnType : Z)
    (pkMinMax : option Result) (st : State) :
  IsSigned columnType = false -> IsUnsigned columnType = false ->
  IsFloat columnType = false -> IsBinary columnType = true ->
  2 ^ 32 < splitCount (this st) ->
  exists boundaries,
    splitBoundaries columnType pkMinMax st =
      Ret (boundaries, None) (with_this st (set_rowCount (this st) 0)) /\
    length boundaries = Z.to_nat (splitCount (this st) - 1) /\
    Forall (fun v => v = MakeTrusted VarBinary (PutUint32 0)) boundaries.
Proof.
  intros Hs Hu Hf Hb Hsc. change (2 ^ 32) with 4294967296 in Hsc.
  assert (I64.quot 4294967296 (splitCount (this st)) = 0) as Hq.
  { unfold I64.quot. rewrite Z.quot_small by lia. done. }
  eexists. split; [|split].
  - unfold splitBoundaries. rewrite Hs, Hu, Hf, Hb.
    rewrite splitBoundariesStringColumn_run by lia. by rewrite Hq.
  - by rewrite length_map, length_seqZ.
  - apply Forall_fmap, Forall_forall. intros i _. done.
Qed.

(** *** Signed columns: where the boundaries fall *)

Lemma int_boundaries_run (columnType : Z) (r : Result) (v0 v1 : Value)
    (rest : list Value) (min max : Z) (st : State) :
  IsSigned columnType = true ->
  Rows r = [v0 :: v1 :: rest] -> IsNull v0 = false -> IsNull v1 = false ->
  ParseInt64 v0 = inr min -> ParseInt64 v1 = inr max ->
  I64.in_range min -> I64.in_range max ->
  1 <= splitCount (this st) <= I64.max_int ->
  I64.min_int <= max - min <= I64.max_int ->
  Z.quot (max - min) (splitCount (this st)) <> 0 ->
  let sc := splitCount (this st) in
  let interval := Z.quot (max - min) sc in
  splitBoundaries columnType (Some r) st =
    Ret (map (fun z => MakeTrusted Int64 (AppendInt z)) (steps min interval sc),
         None)
        (with_this st (set_rowCount (this st) interval)).
Proof.
  intros Hsigned HR H0 H1 Hmin Hmax Rmin Rmax Hsc Hd Hnz sc interval.
  assert (0 < sc) as Hpos by (unfold sc; lia).
  assert (exists q, 0 <= q /\
                    ((0 <= max - min /\ interval = q) \/
                     (max - min < 0 /\ interval = - q)) /\
                    forall i, 0 <= i < sc -> 0 <= q * i <= Z.abs (max - min) - q)
    as (q & Hq0 & Habs & Hstep).
  { destruct (Z.le_gt_cases 0 (max - min)) as [Hd0|Hd0].
    - exists ((max - min) / sc).
      assert (interval = (max - min) / sc) as ->
        by (unfold interval; apply Z.quot_div_nonneg; lia).
      assert (0 <= (max - min) / sc) by (apply Z.div_pos; lia).
      split; [done|]. split; [lia|]. intros i Hi.
      rewrite (Z.abs_eq (max - min)) by lia.
      by apply interval_steps.
    - exists ((- (max - min)) / sc).
      assert (interval = - ((- (max - min)) / sc)) as ->.
      { unfold interval.
        rewrite <- (Z.opp_involutive (max - min)) at 1.
        rewrite Z.quot_opp_l by lia. f_equal.
        apply Z.quot_div_nonneg; lia. }
      assert (0 <= (- (max - min)) / sc) by (apply Z.div_pos; lia).
      split; [done|]. split; [lia|]. intros i Hi.
      rewrite (Z.abs_neq (max - min)) by lia.
      apply interval_steps; lia. }
  unfold I64.in_range, I64.min_int, I64.max_int in *.
  unfold splitBoundaries. rewrite Hsigned.
  rewrite (splitBoundariesIntColumn_run r v0 v1 rest min max)
    by (try done; lia).
  fold sc. unfold I64.sub.
  rewrite (I64_wrap_small (max - min))
    by (unfold I64.in_range, I64.min_int, I64.max_int; lia).
  unfold I64.quot. fold interval.
  assert (Z.abs interval <= Z.abs (max - min)) as Hle.
  { specialize (Hstep 0 ltac:(lia)). lia. }
  rewrite (I64_wrap_small interval)
    by (unfold I64.in_range, I64.min_int, I64.max_int; lia).
  replace (interval =? 0) with false by (symmetry; by apply Z.eqb_neq).
  f_equal. f_equal. unfold steps. rewrite map_map.
  apply map_ext_in. intros i Hi.
  apply list_elem_of_In, elem_of_seqZ in Hi. unfold int_boundary.
  specialize (Hstep i ltac:(lia)).
  assert ((0 <= max - min /\ interval * i = q * i) \/
          (max - min < 0 /\ interval * i = - (q * i))) as Hsign
    by (destruct Habs as [[? ->]|[? ->]]; [left|right]; split; lia).
  unfold I64.add, I64.mul.
  rewrite (I64_wrap_small (interval * i))
    by (unfold I64.in_range, I64.min_int, I64.max_int; lia).
  rewrite I64_wrap_small; [done|].
  unfold I64.in_range, I64.min_int, I64.max_int. lia.
Qed.

Lemma steps_last (min interval sc : Z) :
  1 <= sc ->
  last (min :: steps min interval sc) = Some (min + interval * (sc - 1)).
Proof.
  intros Hsc. rewrite last_lookup. cbn [length Nat.pred].
  destruct (Z.eq_dec sc 1) as [->|Hne].
  - change (steps min interval 1) with (@nil Z). cbn [length].
    change (Some min = Some (min + interval * 0)). f_equal. lia.
  - assert (length (steps min interval sc) = S (Z.to_nat (sc - 2))) as Hl
      by (pose proof (steps_length min interval sc Hsc); lia).
    rewrite Hl. cbn [lookup list_lookup]. apply steps_lookup.
    rewrite Z2Nat.id by lia. split; [|lia]. f_equal. f_equal. lia.
Qed.

(** Where the signed boundaries fall when [min <= max].  With
    [interval = (max - min) / splitCount] not zero, every boundary lies
    above [min] and at least [interval] below [max]; from [min] on, each
    is [interval] above the one before; and the last one leaves
    [interval + (max - min) mod splitCount] up to [max]: the remainder of
    the division is not spread, it all goes to the last range. *)
Theorem int_last_range (columnType : Z) (r : Result) (v0 v1 : Value)
    (rest : list Value) (min max : Z) (st : State) :
  IsSigned columnType = true ->
  Rows r = [v0 :: v1 :: rest] -> IsNull v0 = false -> IsNull v1 = false ->
  ParseInt64 v0 = inr min -> ParseInt64 v1 = inr max ->
  I64.in_range min -> I64.in_range max ->
  1 <= splitCount (this st) <= I64.max_int ->
  0 <= max - min <= I64.max_int ->
  Z.quot (max - min) (splitCount (this st)) <> 0 ->
  let sc := splitCount (this st) in
  let interval := (max - min) / sc in
  exists nums st1,
    splitBoundaries columnType (Some r) st =
      Ret (map (fun z => MakeTrusted Int64 (AppendInt z)) nums, None) st1 /\
    (forall z, z ∈ nums -> min < z <= max - interval) /\
    (forall k x y, (min :: nums) !! k = Some x ->
                   (min :: nums) !! S k = Some y -> y - x = interval) /\
    (exists final, last (min :: nums) = Some final /\
                   max - final = interval + (max - min) mod sc) /\
    0 <= (max - min) mod sc < sc.
Proof.
  intros Hsigned HR H0 H1 Hmin Hmax Rmin Rmax Hsc Hd Hnz sc interval.
  assert (Z.quot (max - min) sc = interval) as Hq
    by (apply Z.quot_div_nonneg; unfold sc; lia).
  pose proof (int_boundaries_run columnType r v0 v1 rest min max st
                Hsigned HR H0 H1 Hmin Hmax Rmin Rmax Hsc
                ltac:(unfold I64.min_int, I64.max_int in *; lia) Hnz) as Hrun.
  cbn zeta in Hrun. fold sc in Hrun. rewrite Hq in Hrun.
  assert (0 < interval) as Hpos.
  { assert (0 <= interval) by (apply Z.div_pos; unfold sc; lia).
    fold sc in Hnz. lia. }
  pose proof (Z.div_mod (max - min) sc ltac:(unfold sc; lia)) as Hdm.
  fold interval in Hdm.
  pose proof (Z.mod_pos_bound (max - min) sc ltac:(unfold sc; lia)) as Hmod.
  eexists _, _. split; [exact Hrun|]. split; [|split; [|split; [|done]]].
  - intros z (i & Hi & ->)%steps_elem. nia.
  - intros k x y Hx Hy. cbn [lookup list_lookup] in Hy.
    apply steps_lookup in Hy as [-> _].
    destruct k as [|k]; [cbn in Hx; injection Hx as <-; lia|].
    cbn [lookup list_lookup] in Hx. apply steps_lookup in Hx as [-> _]. lia.
  - eexists. split; [apply steps_last; unfold sc; lia|]. lia.
Qed.

(** Nothing orders the two values of the result.  On a signed column whose
    result has [max < min], with the difference within [int64] and a
    truncated quotient [interval = (max - min) / splitCount] not zero, no
    error is reported: the interval is negative, the boundaries
    [min + interval * i] descend from [min] towards [max], staying strictly
    between the two, the estimate is the negative interval, and [split]
    returns [splitCount] splits, each one carrying that interval as its
    row count when there are two or more. *)
Theorem int_boundaries_inverted (columnType : Z) (r : Result) (v0 v1 : Value)
    (rest : list Value) (min max : Z) (st : State) (s : Select) :
  IsSigned columnType = true ->
  Rows r = [v0 :: v1 :: rest] -> IsNull v0 = false -> IsNull v1 = false ->
  ParseInt64 v0 = inr min -> ParseInt64 v1 = inr max ->
  I64.in_range min -> I64.in_range max ->
  1 <= splitCount (this st) <= I64.max_int ->
  max < min -> I64.min_int <= max - min ->
  Z.quot (max - min) (splitCount (this st)) <> 0 ->
  sel (this st) = Some s ->
  let sc := splitCount (this st) in
  let interval := Z.quot (max - min) sc in
  let nums := steps min interval sc in
  exists st1 splits st',
    interval < 0 /\
    splitBoundaries columnType (Some r) st =
      Ret (map (fun z => MakeTrusted Int64 (AppendInt z)) nums, None) st1 /\
    (forall z, z ∈ nums -> max < z < min) /\
    (forall j k x y, (j < k)%nat -> nums !! j = Some x -> nums !! k = Some y ->
                     y < x) /\
    rowCount (this st1) = interval /\
    split columnType (Some r) st = Ret (splits, None) st' /\
    Z.of_nat (length splits) = sc /\
    (2 <= sc -> Forall (fun sp => RowCount sp = interval) splits).
Proof.
  intros Hsigned HR H0 H1 Hmin Hmax Rmin Rmax Hsc Hlt Hlo Hnz Hsel
         sc interval nums.
  pose proof (int_boundaries_run columnType r v0 v1 rest min max st
                Hsigned HR H0 H1 Hmin Hmax Rmin Rmax Hsc
                ltac:(unfold I64.min_int, I64.max_int in *; lia) Hnz) as Hrun.
  cbn zeta in Hrun. fold sc interval nums in Hrun.
  assert (0 < sc) as Hpos by (unfold sc; lia).
  assert (interval = - ((min - max) / sc)) as Hint.
  { unfold interval. replace (max - min) with (- (min - max)) by lia.
    rewrite Z.quot_opp_l by lia. f_equal. apply Z.quot_div_nonneg; lia. }
  assert (0 <= (min - max) / sc) as Hq0 by (apply Z.div_pos; lia).
  assert (interval < 0) as Hneg by (fold sc interval in Hnz; lia).
  assert (forall i, 0 <= i < sc ->
            0 <= (min - max) / sc * i <= (min - max) - (min - max) / sc)
    as Hstep by (intros i Hi; apply interval_steps; lia).
  destruct (split_length _ _ _ _ _ _ Hsel Hrun)
    as (splits & st' & Hsp & Hl & _ & Hrc).
  eexists _, splits, st'. split; [done|]. split; [exact Hrun|].
  split; [|split; [|split; [done|split; [done|split]]]].
  - intros z (i & Hi & ->)%steps_elem. specialize (Hstep i ltac:(lia)). nia.
  - intros j k x y Hjk Hx Hy.
    apply steps_lookup in Hx as [-> _]. apply steps_lookup in Hy as [-> _]. nia.
  - rewrite Hl, length_map.
    pose proof (steps_length min interval sc) as Hsl. fold nums in Hsl. lia.
  - intros H2. apply Hrc.
    intros Hnil. apply (f_equal length) in Hnil.
    rewrite length_map in Hnil. cbn in Hnil.
    pose proof (steps_length min interval sc) as Hsl. fold nums in Hsl. lia.
Qed.

(** *** The texts of the splits *)

Lemma range_splits_Sql (c : ColIdent) (rc : Z) (s : Select) (w : option Where)
    (src : mapref) (boundaries : list Value) :
  forall start h i sp,
    (fst (range_splits c rc s w src start boundaries h)) !! i = Some sp ->
    exists a e,
      (start :: boundaries) !! i = Some a /\ boundaries !! i = Some e /\
      Sql sp = SelectString (set_Where s (range_where c w a e)) /\
      RowCount sp = rc.
Proof.
  induction boundaries as [|e rest IH]; intros start h i sp;
    cbn [range_splits fst snd]; [done|].
  destruct i as [|i].
  - intros [= <-]. by exists start, e.
  - intros Hsp. by apply IH in Hsp.
Qed.

(** When boundaries come back, the text of every split is the statement
    rendered with a WHERE clause made from the clause the statement had
    before the call -- not from the clause left by the split before it --
    and the range of the split: below the first boundary for the first
    split, from the last boundary on for the last, between two
    neighbouring boundaries for the others.  Every split carries the
    estimate of the boundary computation. *)
Theorem split_texts (columnType : Z) (pkMinMax : option Result)
    (st st1 : State) (boundaries : list Value) (s : Select) :
  sel (this st) = Some s ->
  splitBoundaries columnType pkMinMax st = Ret (boundaries, None) st1 ->
  boundaries <> [] ->
  let c := splitColumn (this st) in
  let n := length boundaries in
  let ge := ComparisonExpr ">=" (ColName c) (ValArg ":_splitquery_start") in
  let lt := ComparisonExpr "<" (ColName c) (ValArg ":_splitquery_end") in
  let text range :=
    SelectString
      (set_Where s
         (Some {| WType := "where";
                  WExpr := match SelWhere s with
                           | Some w => AndExpr (ParenExpr (WExpr w))
                                               (ParenExpr range)
                           | None => range
                           end |})) in
  exists splits st',
    split columnType pkMinMax st = Ret (splits, None) st' /\
    length splits = S n /\
    forall i sp, splits !! i = Some sp ->
      RowCount sp = rowCount (this st1) /\
      (i = 0%nat -> Sql sp = text lt) /\
      ((0 < i < n)%nat -> Sql sp = text (AndExpr ge lt)) /\
      (i = n -> Sql sp = text ge).
Proof.
  intros Hsel Hb Hne c n ge lt text.
  pose proof (post_Ret _ _ _ _ (splitBoundaries_post columnType pkMinMax st) Hb)
    as [Hnn Hk].
  cbn [fst] in Hnn.
  apply kept_fields in Hk as (_ & _ & _ & _ & Hc & _).
  destruct (split_outcome _ _ _ _ _ _ Hsel Hb) as [Hsel1 _].
  pose proof (split_ranges _ _ _ _ boundaries s Hb Hne Hsel1) as Hsplit.
  cbn zeta in Hsplit.
  assert (n <> 0)%nat as Hn0.
  { unfold n. intros Hz. by apply length_zero_iff_nil in Hz. }
  eexists _, _. split; [exact Hsplit|]. cbn [fst].
  split.
  { rewrite range_splits_length, length_app. cbn. fold n. lia. }
  intros i sp Hsp.
  apply range_splits_Sql in Hsp as (a & e & Ha & He & HSql & Hrc).
  split; [done|]. rewrite Hc in HSql. fold c in HSql.
  destruct (bounds_of_split _ _ _ _ Ha He) as [Hstart Hend]. fold n in Hend.
  assert (forall k v, boundaries !! k = Some v -> IsNull v = false) as Hnon.
  { intros k v Hv. rewrite Forall_forall in Hnn.
    apply (Hnn v). by eapply list_elem_of_lookup_2. }
  unfold range_where, conjoin, startClause_of, endClause_of in HSql.
  split; [|split].
  - intros ->. destruct Hstart as [[_ ->]|[? _]]; [|lia].
    destruct Hend as [[_ He']|[? _]]; [|lia].
    rewrite (Hnon _ _ He') in HSql. exact HSql.
  - intros Hi. destruct Hstart as [[? _]|[_ Ha']]; [lia|].
    destruct Hend as [[_ He']|[? _]]; [|lia].
    rewrite (Hnon _ _ Ha'), (Hnon _ _ He') in HSql. exact HSql.
  - intros ->. destruct Hstart as [[? _]|[_ Ha']]; [lia|].
    destruct Hend as [[? _]|[_ ->]]; [lia|].
    rewrite (Hnon _ _ Ha') in HSql. exact HSql.
Qed.

(** *** The statement [validateQuery] leaves behind *)

(** Whether it then succeeds or fails, [validateQuery] stores what the
    parser gave it: a text that does not parse leaves the statement of the
    splitter as it was, a SELECT becomes its statement -- also when the
    query is then refused -- and any other statement clears it. *)
Theorem validateQuery_statement (st : State) :
  exists (r : option error) (st' : State),
    validateQuery st = Ret r st' /\
    sel (this st') =
      match Parse (sql (this st)) with
      | inl _ => sel (this st)
      | inr (SelectStmt s) => Some s
      | inr (OtherStmt _) => None
      end /\
    (r = None -> exists s, Parse (sql (this st)) = inr (SelectStmt s)).
Proof.
  eexists _, _. split; [apply validateQuery_validation|].
  cbn [with_this this]. unfold validation.
  destruct (Parse (sql (this st))) as [err|[s|text]]; [done| |done].
  split; [|by eexists]. cbn zeta.
  destruct (unsupported_shape s); [done|].
  destruct (From s) as [|[e alias hints|?|?] rest]; [done| |done|done].
  destruct (IsEmpty (GetTableName e)); [done|].
  destruct (se (this st) (GetTableName e)) as [table|]; [|done].
  destruct (_ =? 0); [done|].
  destruct (negb _); [by destruct (indexed _ _)|done].
Qed.

(** *** Splitting again *)

Lemma outcome_of_again (c : Computed) (st st1 st2 : State)
    (boundaries : list Value) :
  outcome_of st c = Ret (boundaries, None) st1 ->
  this st2 = this st1 ->
  exists st3,
    outcome_of st2 c = Ret (boundaries, None) st3 /\
    this st3 = this st1 /\ store st3 = store st2.
Proof.
  destruct c as [p|e|evs|bs est evs]; cbn [outcome_of]; [done|done| |].
  - intros [= <- <-] H2. eexists. split; [done|]. by rewrite <- H2.
  - intros [= <- <-] H2. eexists. split; [done|].
    cbn. rewrite H2. cbn. split; [|done]. by destruct (this st).
Qed.

Lemma range_splits_dom (c : ColIdent) (rc : Z) (s : Select) (w : option Where)
    (src : mapref) (start : Value) (boundaries : list Value)
    (h : gmap loc (gmap string Native)) (l : loc) :
  l ∈ dom h -> l ∈ dom (snd (range_splits c rc s w src start boundaries h)).
Proof.
  intros Hl. apply elem_of_dom.
  rewrite range_splits_old by done. by apply elem_of_dom.
Qed.

(** Calling [split] a second time with the same arguments.  On a
    validated statement whose bind-variable map exists, if [split]
    returned splits without an error then a second call returns as many,
    index by index with the same text, the same estimate and the same
    bindings; the splitter is as the first call left it, and the maps of
    the first call are not written to. *)
Theorem split_twice (columnType : Z) (pkMinMax : option Result)
    (st st' : State) (splits : list QuerySplit) (s : Select) :
  sel (this st) = Some s ->
  mapref_valid (store st) (bindVariables (this st)) ->
  split columnType pkMinMax st = Ret (splits, None) st' ->
  exists splits2 st'',
    split columnType pkMinMax st' = Ret (splits2, None) st'' /\
    length splits2 = length splits /\
    this st'' = this st' /\
    (forall l, l ∈ dom (store st') -> store st'' !! l = store st' !! l) /\
    forall i sp sp2, splits !! i = Some sp -> splits2 !! i = Some sp2 ->
      Sql sp2 = Sql sp /\ RowCount sp2 = RowCount sp /\
      map_contents (store st'') (BindVariables sp2)
      = map_contents (store st') (BindVariables sp).
Proof.
  intros Hsel Hvalid Hsplit.
  destruct (splitBoundaries columnType pkMinMax st) as [[bs err] st1|p] eqn:Hb.
  2:{ unfold split, mbind in Hsplit. by rewrite Hb in Hsplit. }
  destruct err as [e|].
  { rewrite (split_error _ _ _ _ _ _ Hb) in Hsplit. done. }
  destruct (split_outcome _ _ _ _ _ _ Hsel Hb) as [Hsel1 _].
  pose proof (post_Ret _ _ _ _ (splitBoundaries_post columnType pkMinMax st) Hb)
    as [_ Hk].
  apply kept_fields in Hk as (_ & Hbv & Hsc & _ & _ & Hstore).
  assert (bs = [] \/ bs <> []) as [->|Hne]
    by (destruct bs; [by left|by right]).
  - rewrite (split_fallback _ _ _ _ Hb) in Hsplit.
    injection Hsplit as <- <-.
    pose proof Hb as Hc. rewrite splitBoundaries_computed in Hc.
    destruct (outcome_of_again _ _ _ st1 _ Hc eq_refl)
      as (st3 & Hb2 & Hthis3 & Hstore3).
    rewrite <- Hsc, <- splitBoundaries_computed in Hb2.
    eexists _, _. split; [exact (split_fallback _ _ _ _ Hb2)|].
    split; [done|]. split; [done|]. split; [by rewrite Hstore3|].
    intros [|i] sp sp2; [|done]. intros [= <-] [= <-].
    by rewrite Hthis3, Hstore3.
  - rewrite (split_ranges _ _ _ _ bs s Hb Hne Hsel1) in Hsplit.
    cbn zeta in Hsplit. injection Hsplit as Hsplits Hst'.
    symmetry in Hsplits, Hst'.
    assert (this st' = this st1) as Hthis by (by rewrite Hst').
    pose proof Hb as Hc. rewrite splitBoundaries_computed in Hc.
    destruct (outcome_of_again _ _ _ st' _ Hc Hthis)
      as (st3 & Hb2 & Hthis3 & Hstore3).
    rewrite <- Hsc, <- Hthis, <- splitBoundaries_computed in Hb2.
    assert (sel (this st3) = Some s) as Hsel3 by (by rewrite Hthis3).
    pose proof (split_ranges _ _ _ _ bs s Hb2 Hne Hsel3) as Hout2.
    cbn zeta in Hout2. rewrite Hthis3, Hstore3 in Hout2.
    set (c := splitColumn (this st1)) in *.
    set (rc := rowCount (this st1)) in *.
    set (src := bindVariables (this st1)) in *.
    set (bounds := bs ++ [NullValue]) in *.
    set (h := store st1) in *.
    assert (store st' = snd (range_splits c rc s (SelWhere s) src NullValue
                               bounds h)) as Hh'
      by (by rewrite Hst').
    rewrite Hh' in Hout2.
    set (h' := snd (range_splits c rc s (SelWhere s) src NullValue bounds h))
      in *.
    assert (mapref_valid h src) as Hv.
    { by rewrite Hbv, Hstore. }
    assert (mapref_valid h' src) as Hv'.
    { destruct src as [l|]; [|done]. apply range_splits_dom. exact Hv. }
    assert (map_contents h' src = map_contents h src) as Hsame.
    { destruct src as [l|]; [|done]. cbn. unfold h'.
      by rewrite range_splits_old by exact Hv. }
    eexists _, _. split; [exact Hout2|]. cbn [fst snd with_store this store].
    split; [by rewrite Hsplits, !range_splits_length|].
    split; [by rewrite Hthis|].
    split.
    { intros l Hl. rewrite Hh'. rewrite Hh' in Hl.
      by apply range_splits_old. }
    intros i sp sp2 Hsp Hsp2. rewrite Hsplits in Hsp.
    apply range_splits_lookup in Hsp
      as (a & e & l & Ha & He & Hl & Hfresh & Hm & HSql & Hrc); [|done].
    apply range_splits_lookup in Hsp2
      as (a2 & e2 & l2 & Ha2 & He2 & Hl2 & Hfresh2 & Hm2 & HSql2 & Hrc2);
      [|done].
    rewrite Ha in Ha2. injection Ha2 as <-.
    rewrite He in He2. injection He2 as <-.
    split; [by rewrite HSql, HSql2|]. split; [by rewrite Hrc, Hrc2|].
    rewrite Hl, Hl2, Hh'. cbn [map_contents].
    rewrite Hm2. fold h' in Hm. rewrite Hm. cbn. by rewrite Hsame.
Qed.

End More.

(** ** The further properties on the sample *)

Definition short_result : option Result :=
  Some {| Rows := [[MakeTrusted Int64 "0"]] |}.

(** A result row with a minimum and no maximum *)
Lemma splitBoundaries_panics_on_short_row_witness :
  splitBoundaries Int64 short_result (validated 4) = Panic IndexOutOfRange.
Proof.
  pose proof (splitBoundaries_panics_on_short_row Int64 short_result
                (validated 4) IndexOutOfRange) as H.
  at_input H. apply (proj2 H).
  split; [reflexivity|]. split; [reflexivity|].
  eexists _, _. split; [reflexivity|]. split; [reflexivity|].
  right. eexists. split; reflexivity.
Defined.

(** Scenario A on a splitter that was never validated *)
Lemma split_needs_statement_witness :
  split Int64 (Some (row_0_100 Int64)) (fresh_state "" 4) = Panic NilPointer.
Proof.
  pose proof (split_needs_statement Int64 (Some (row_0_100 Int64))
                (fresh_state "" 4) (after_boundaries (fresh_state "" 4) 25)
                boundaries_25_50_75) as H.
  at_input H. exact H.
Defined.

(** Validating the sample a second time, with [id] requested *)
Lemma validateQuery_twice_witness :
  validateQuery (validated 4) = Ret None (validated 4).
Proof.
  pose proof (validateQuery_twice (fresh_state "id" 4) (validated 4)) as H.
  at_input H. exact H.
Defined.

Lemma validated_split_panics_on_short_row_witness :
  split Int64 short_result (validated 4) = Panic IndexOutOfRange.
Proof.
  pose proof (validated_split_panics_on_short_row
                "select * from t where a = :x" (Some caller_map) "" 4 schema
                caller_store (validated 4) Int64 short_result IndexOutOfRange)
    as H.
  at_input H. apply (proj2 H).
  split; [reflexivity|]. split; [reflexivity|].
  eexists _, _. split; [reflexivity|]. split; [reflexivity|].
  right. eexists. split; reflexivity.
Defined.

(** Scenario A on an unsigned column *)
Lemma uint_boundaries_ordered_witness :
  exists st1,
    splitBoundaries Uint64 (Some (row_0_100 Uint64)) (validated 4)
    = Ret ([MakeTrusted Uint64 "25"; MakeTrusted Uint64 "50";
            MakeTrusted Uint64 "75"], None) st1 /\
    rowCount (this st1) = 25 /\
    exists splits st',
      split Uint64 (Some (row_0_100 Uint64)) (validated 4)
      = Ret (splits, None) st' /\
      Z.of_nat (length splits) = 4.
Proof.
  pose proof (uint_boundaries_ordered Uint64 (row_0_100 Uint64)
                (MakeTrusted Uint64 "0") (MakeTrusted Uint64 "100") [] 0 100
                (validated 4) select_t) as H.
  at_input H.
  destruct H as (st1 & Hb & _ & _ & _ & Hrc & splits & st' & Hsplit & Hlen).
  exists st1. split; [etrans; [exact Hb|reflexivity]|].
  split; [etrans; [apply Hrc; vm_compute; discriminate|reflexivity]|].
  exists splits, st'. split; [exact Hsplit|exact Hlen].
Defined.

(** Scenario A on a float column *)
Lemma float_boundaries_witness :
  exists splits st',
    split Float64 (Some (row_0_100 Float64)) (validated 4)
    = Ret (splits, None) st' /\
    Z.of_nat (length splits) = 4 /\
    rowCount (this st') = 25.
Proof.
  pose proof (float_boundaries Float64 (row_0_100 Float64)
                (MakeTrusted Float64 "0") (MakeTrusted Float64 "100") []
                (float_of_int 0) (float_of_int 100) (validated 4) select_t)
    as H.
  at_input H.
  destruct H as (_ & splits & st' & Hsplit & Hlen & Hrc).
  exists splits, st'. split; [exact Hsplit|].
  split; [etrans; [exact Hlen|reflexivity]|etrans; [exact Hrc|reflexivity]].
Defined.

(** A binary column in 4 splits: the third boundary reads back as
    [3 * 2^30]. *)
Lemma string_boundaries_ordered_witness :
  exists boundaries st1 v,
    splitBoundaries VarBinary None (validated 4) = Ret (boundaries, None) st1 /\
    boundaries !! 2%nat = Some v /\
    Uint32_of_bytes (val v) = Some 3221225472 /\
    rowCount (this st1) = 1073741824.
Proof.
  pose proof (string_boundaries_ordered VarBinary None (validated 4) select_t)
    as H.
  at_input H.
  destruct H as (boundaries & st1 & Hb & _ & Hdecode & _ & _ & Hrc & _).
  destruct (Hdecode 3 ltac:(vm_compute; intuition discriminate))
    as (v & Hv & _ & Hval).
  exists boundaries, st1, v. split; [exact Hb|]. split; [exact Hv|].
  split; [etrans; [exact Hval|reflexivity]|etrans; [exact Hrc|reflexivity]].
Defined.

(** One split more than [2^32] *)
Lemma string_boundaries_degenerate_witness :
  exists boundaries,
    splitBoundaries VarBinary None (validated 4294967297)
    = Ret (boundaries, None)
          (with_this (validated 4294967297)
             (set_rowCount (this (validated 4294967297)) 0)) /\
    length boundaries = Z.to_nat (splitCount (this (validated 4294967297)) - 1) /\
    Forall (fun v => v = MakeTrusted VarBinary (PutUint32 0)) boundaries.
Proof.
  pose proof (string_boundaries_degenerate VarBinary None
                (validated 4294967297)) as H.
  at_input H. exact H.
Defined.

(** [id] from 0 to 103 in 4 splits: the last boundary is 75, and the last
    range takes the 3 that the division leaves. *)
Lemma int_last_range_witness :
  exists nums st1 final,
    splitBoundaries Int64 (min_max Int64 "0" "103") (validated 4)
    = Ret (map (fun z => MakeTrusted Int64 (format_int z)) nums, None) st1 /\
    last (0 :: nums) = Some final /\
    103 - final = 25 + 3.
Proof.
  pose proof (int_last_range Int64
                {| Rows := [[MakeTrusted Int64 "0"; MakeTrusted Int64 "103"]] |}
                (MakeTrusted Int64 "0") (MakeTrusted Int64 "103") [] 0 103
                (validated 4)) as H.
  at_input H.
  destruct H as (nums & st1 & Hb & _ & _ & (final & Hlast & Hfinal) & _).
  exists nums, st1, final. split; [exact Hb|]. split; [exact Hlast|exact Hfinal].
Defined.

(** [id] from 100 down to 0 in 4 splits: boundaries 75, 50 and 25, and an
    estimate of -25 rows *)
Lemma int_boundaries_inverted_witness :
  exists st1 splits st',
    splitBoundaries Int64 (min_max Int64 "100" "0") (validated 4)
    = Ret ([MakeTrusted Int64 "75"; MakeTrusted Int64 "50";
            MakeTrusted Int64 "25"], None) st1 /\
    rowCount (this st1) = -25 /\
    split Int64 (min_max Int64 "100" "0") (validated 4)
    = Ret (splits, None) st' /\
    Z.of_nat (length splits) = 4 /\
    Forall (fun sp => RowCount sp = -25) splits.
Proof.
  pose proof (int_boundaries_inverted Int64
                {| Rows := [[MakeTrusted Int64 "100"; MakeTrusted Int64 "0"]] |}
                (MakeTrusted Int64 "100") (MakeTrusted Int64 "0") [] 100 0
                (validated 4) select_t) as H.
  at_input H.
  destruct H as (st1 & splits & st' & _ & Hb & _ & _ & Hrc & Hsplit & Hlen & Hall).
  exists st1, splits, st'. split; [etrans; [exact Hb|reflexivity]|].
  split; [etrans; [exact Hrc|reflexivity]|]. split; [exact Hsplit|].
  split; [exact Hlen|].
  apply Hall. vm_compute. discriminate.
Defined.

(** The first and the last text of scenario A *)
Lemma split_texts_witness :
  exists splits st',
    split Int64 (Some (row_0_100 Int64)) (validated 4) = Ret (splits, None) st' /\
    length splits = 4%nat /\
    (forall sp, splits !! 0%nat = Some sp ->
       Sql sp = "select * from t where (a = :x) and (id < :_splitquery_end)") /\
    (forall sp, splits !! 3%nat = Some sp ->
       Sql sp = "select * from t where (a = :x) and (id >= :_splitquery_start)").
Proof.
  pose proof (split_texts Int64 (Some (row_0_100 Int64)) (validated 4)
                (after_boundaries (validated 4) 25) boundaries_25_50_75
                select_t) as H.
  at_input H.
  destruct H as (splits & st' & Hsplit & Hlen & Hall).
  exists splits, st'. split; [exact Hsplit|]. split; [exact Hlen|].
  split; intros sp Hsp.
  - destruct (Hall _ _ Hsp) as (_ & Hfirst & _).
    etrans; [exact (Hfirst eq_refl)|reflexivity].
  - destruct (Hall _ _ Hsp) as (_ & _ & _ & Hlast).
    etrans; [exact (Hlast eq_refl)|reflexivity].
Defined.

(** What a computation returned, and the state it left *)
Definition returned {A} (o : Outcome A) (d : A) : A :=
  match o with Ret a _ => a | Panic _ => d end.
Definition state_after {A} (o : Outcome A) (d : State) : State :=
  match o with Ret _ s => s | Panic _ => d end.

Definition two_splits : Outcome (list QuerySplit * option error) :=
  split Int64 (Some (row_0_100 Int64)) (validated 2).

(** [id] from 0 to 100 in 2 splits, twice *)
Lemma split_twice_witness :
  let splits := fst (returned two_splits ([], None)) in
  let st' := state_after two_splits (validated 2) in
  exists splits2 st'',
    split Int64 (Some (row_0_100 Int64)) st' = Ret (splits2, None) st'' /\
    length splits2 = 2%nat /\
    this st'' = this st'.
Proof.
  intros splits st'.
  pose proof (split_twice Int64 (Some (row_0_100 Int64)) (validated 2) st'
                splits select_t) as H.
  at_input H.
  destruct H as (splits2 & st'' & Hsplit & Hlen & Hthis & _).
  exists splits2, st''. split; [exact Hsplit|].
  split; [etrans; [exact Hlen|reflexivity]|exact Hthis].
Defined.
